(** * The development-mode watcher of nexus: runner supervision

    A shallow embedding of [src/watcher/watcher.ts]: the path helpers
    ([getPrefix], [getLevel], [isPrefixOf]), the matcher built by
    [createPathMatcher], and the restart state machine that lives in the
    closure of [createWatcher] ([startRunner], [stopRunner],
    [restartRunner], the exit and message handlers, the relay of
    termination signals).

    The calls to the collaborators are kept as a trace of effects.  The
    debug output of [log] is not part of the embedding. *)

From Stdlib Require Import ZArith Ascii String List Bool Lia.
From stdpp Require Import base list strings.

Local Open Scope Z_scope.

(** ** The string primitives of the host language

    JavaScript's [String.prototype] methods used by the watcher, over
    Rocq strings.  Indices are [Z], because the methods answer [-1]. *)
Module JsString.

(** [startsWith n s]: the characters of [n] are the first characters of [s]. *)
Fixpoint startsWith (n s : string) : bool :=
  match n with
  | EmptyString => true
  | String a n' =>
      match s with
      | EmptyString => false
      | String b s' => Ascii.eqb a b && startsWith n' s'
      end
  end.

(** [s.indexOf(n)]: the first index at which [n] occurs in [s], or [-1]. *)
Fixpoint indexOf (s n : string) : Z :=
  if startsWith n s then 0
  else match s with
       | EmptyString => -1
       | String _ s' =>
           let i := indexOf s' n in
           if i <? 0 then -1 else i + 1
       end.

(** [s.lastIndexOf(n)]: the last index at which [n] occurs in [s], or [-1]. *)
Fixpoint lastIndexOf (s n : string) : Z :=
  match s with
  | EmptyString => if startsWith n s then 0 else -1
  | String _ s' =>
      let i := lastIndexOf s' n in
      if 0 <=? i then i + 1
      else if startsWith n s then 0 else -1
  end.

(** [s.slice(b, e)], with the relative (negative) indices of the language. *)
Definition slice (s : string) (b e : Z) : string :=
  let len := Z.of_nat (String.length s) in
  let from := if b <? 0 then Z.max (len + b) 0 else Z.min b len in
  let to := if e <? 0 then Z.max (len + e) 0 else Z.min e len in
  String.substring (Z.to_nat from) (Z.to_nat (Z.max (to - from) 0)) s.

(** The loop of [s.split(sep)] for a separator that is not empty.  [skip]
    is the number of characters of a separator just matched that are
    still to be jumped over; [cur] is the piece being collected. *)
Fixpoint splitLoop (sep : string) (skip : nat) (cur : string) (s : string)
  : list string :=
  match s with
  | EmptyString => [cur]
  | String c s' =>
      match skip with
      | S k => splitLoop sep k cur s'
      | O =>
          if startsWith sep s
          then cur :: splitLoop sep (Nat.pred (String.length sep)) EmptyString s'
          else splitLoop sep O (cur +:+ String c EmptyString) s'
      end
  end.

(** The pieces of [s.split("")]: one string per character. *)
Fixpoint chars (s : string) : list string :=
  match s with
  | EmptyString => []
  | String c s' => String c EmptyString :: chars s'
  end.

(** [s.split(sep)]. *)
Definition split (s sep : string) : list string :=
  match sep with
  | EmptyString => chars s
  | String _ _ => splitLoop sep O EmptyString s
  end.

(** [~i]: the bitwise complement, and its truth value in a condition. *)
Definition bitNot (i : Z) : Z := Z.lnot i.
Definition truthyNumber (i : Z) : bool := negb (i =? 0).

(** What is left of [s] from index [k] on. *)
Fixpoint dropS (k : nat) (s : string) : string :=
  match k, s with
  | O, _ => s
  | S _, EmptyString => EmptyString
  | S k', String _ s' => dropS k' s'
  end.

(** The number of indices of [s] at which [n] occurs. *)
Fixpoint occurrences (n s : string) : nat :=
  (if startsWith n s then 1 else 0)%nat +
  match s with
  | EmptyString => O
  | String _ s' => occurrences n s'
  end.

End JsString.

(** ** The path helpers of the watcher *)
Module Paths.
Import JsString.

Definition node_modules : string := "node_modules".

(** [getPrefix]: the path up to the last occurrence of [node_modules], or
    the empty string. *)
Definition getPrefix (mod_ : string) : string :=
  let n := node_modules in
  let i := lastIndexOf mod_ n in
  if truthyNumber (bitNot i)
  then slice mod_ 0 (i + Z.of_nat (String.length n))
  else EmptyString.

(** [getLevel]: the nesting level of a module. *)
Definition getLevel (mod_ : string) : Z :=
  let p := getPrefix mod_ in
  Z.of_nat (length (split p node_modules)) - 1.

(** [isPrefixOf(value)(prefix)]. *)
Definition isPrefixOf (value prefix : string) : bool :=
  indexOf value prefix =? 0.

End Paths.

(** ** The matcher of the listeners *)
Module Matcher.

(** A matcher string that starts with [!] is a negated pattern. *)
Definition isNegated (m : string) : bool :=
  match m with
  | String c _ => Ascii.eqb c "!"
  | EmptyString => false
  end.

(** [m.slice(1)] on a matcher that is not empty. *)
Definition dropBang (m : string) : string :=
  match m with
  | String _ m' => m'
  | EmptyString => EmptyString
  end.

(** [pattern => '!' + pattern]. *)
Definition bang (pattern : string) : string := "!" +:+ pattern.

Section WithGlob.

(** The glob engine is a primitive of the host: [glob pattern path] says
    whether one pattern matches one path. *)
Variable glob : string -> string -> bool.

(** [anymatch(matchers)] is the function of the [anymatch] package, a
    dependency that is not part of the sources.  On a list of strings it
    is taken as the package describes it: the strings that start with [!]
    are negations and nothing else; a path is matched when no negated
    pattern matches it and some other pattern does.  On the empty list it
    matches nothing. *)
Definition anymatch (matchers : list string) (path : string) : bool :=
  let negatedGlobs := map dropBang (List.filter isNegated matchers) in
  let patterns := List.filter (fun m => negb (isNegated m)) matchers in
  if existsb (fun g => glob g path) negatedGlobs then false
  else existsb (fun p => glob p path) patterns.

(** [createPathMatcher({toMatch, toIgnore})]; a missing list is [None]. *)
Definition createPathMatcher (toMatch toIgnore : option (list string))
  : string -> bool :=
  let toAllow := default [] toMatch in
  let toIgnore := default [] (map bang <$> toIgnore) in
  let matchers := toAllow ++ toIgnore in
  anymatch matchers.

End WithGlob.

End Matcher.

(** ** The supervisor: one runner, restarted on change *)
Module Supervisor.
Import JsString Paths.

(** The part of [cfgFactory(opts)] the watcher reads. *)
Record Cfg := mkCfg {
  cfg_respawn : bool;
  cfg_deps : Z;
  cfg_ignore : list string
}.

(** What the closure of [createWatcher] takes from outside: the
    configuration, the path [compiler.tsConfigPath] (the same before and
    after [compiler.init(opts)], [opts] being fixed), the ignore patterns
    the plugins contribute to the core listener, and the two engines of
    the host: [new RegExp(r).test(v)] as [regExpTest r v], and the glob
    engine behind [anymatch].  [new RegExp(r)] raises [SyntaxError] on a
    pattern that is no regular expression: [regExpTest r v] is then
    [None], and otherwise the answer of [test]. *)
Record Host := mkHost {
  cfg : Cfg;
  tsConfigPath : option string;
  pluginIgnoreContributions : list string;
  regExpTest : string -> string -> option bool;
  globMatch : string -> string -> bool
}.

(** How a computation of the handlers completes: with a value, or by
    raising the [SyntaxError] of [new RegExp(rule)]. *)
Inductive Completion (A : Type) :=
  | Normal (a : A)
  | Throws (rule : string).
Arguments Normal {A} a.
Arguments Throws {A} rule.

(** The listeners of a child's [exit] event: the one [startRunner]
    registers, and the one [restartRunner] adds while the runner is still
    executing. *)
Inductive ExitListener :=
  | ExitOfStartRunner
  | ExitOfRestartRunner.

(** A [Process]: the child handle with the flags the watcher keeps on it.
    The flags are [undefined] on a new handle and are only ever tested for
    truth, so they are booleans here; [connected] is compared with
    [undefined] and [true], so it keeps its three values. *)
Record Process := mkProcess {
  exited : bool;
  stopping : bool;
  respawn : bool;
  connected : option bool;
  exitListeners : list ExitListener
}.

(** What follows the settlement of a [sendSigterm] promise: only a log
    line (in [stopRunner]), or the resolution of the session's promise (in
    the relay of a termination signal). *)
Inductive Continuation :=
  | ThenLog
  | ThenResolve.

(** The calls the watcher makes to its collaborators, in order. *)
Inductive Effect :=
  | Fork (pid : nat)
  | Disconnect (pid : nat)
  | SendSigterm (pid : nat)
  | WatcherPause
  | WatcherResume
  | WatcherAddSilently (path : string)
  | CompilerInit
  | CompileChanged (file : string)
  | WriteReadyFile
  | EmitServerReady
  | ConsoleError
  | WarnSigtermFailed
  | ProcessExit (code : Z)
  | ThrowSyntaxError (rule : string).

(** The state of one [createWatcher] session.  [procs] is the store of the
    [Process] objects, a handle being its index; [runner] and
    [runnerRestarting] are the two variables of the closure. *)
Record Session := mkSession {
  procs : list Process;
  runner : nat;
  runnerRestarting : bool;
  paused : bool;
  watched : list string;
  pendingSigterms : list (nat * Continuation);
  resolved : bool;
  terminated : option Z;
  trace : list Effect
}.

Definition setProcs (ps : list Process) (s : Session) : Session :=
  mkSession ps (runner s) (runnerRestarting s) (paused s) (watched s)
            (pendingSigterms s) (resolved s) (terminated s) (trace s).

Definition setRunner (r : nat) (s : Session) : Session :=
  mkSession (procs s) r (runnerRestarting s) (paused s) (watched s)
            (pendingSigterms s) (resolved s) (terminated s) (trace s).

Definition setRunnerRestarting (b : bool) (s : Session) : Session :=
  mkSession (procs s) (runner s) b (paused s) (watched s)
            (pendingSigterms s) (resolved s) (terminated s) (trace s).

Definition setPaused (b : bool) (s : Session) : Session :=
  mkSession (procs s) (runner s) (runnerRestarting s) b (watched s)
            (pendingSigterms s) (resolved s) (terminated s) (trace s).

Definition setWatched (w : list string) (s : Session) : Session :=
  mkSession (procs s) (runner s) (runnerRestarting s) (paused s) w
            (pendingSigterms s) (resolved s) (terminated s) (trace s).

Definition setPendingSigterms (q : list (nat * Continuation)) (s : Session)
  : Session :=
  mkSession (procs s) (runner s) (runnerRestarting s) (paused s) (watched s)
            q (resolved s) (terminated s) (trace s).

Definition setResolved (b : bool) (s : Session) : Session :=
  mkSession (procs s) (runner s) (runnerRestarting s) (paused s) (watched s)
            (pendingSigterms s) b (terminated s) (trace s).

Definition setTerminated (t : option Z) (s : Session) : Session :=
  mkSession (procs s) (runner s) (runnerRestarting s) (paused s) (watched s)
            (pendingSigterms s) (resolved s) t (trace s).

(** Record one call to a collaborator. *)
Definition emit (e : Effect) (s : Session) : Session :=
  mkSession (procs s) (runner s) (runnerRestarting s) (paused s) (watched s)
            (pendingSigterms s) (resolved s) (terminated s) (trace s ++ [e]).

(** Write the object behind the handle [pid]. *)
Definition setProc (pid : nat) (p : Process) (s : Session) : Session :=
  setProcs (<[pid := p]> (procs s)) s.

(** *** The file watcher *)

(** Modelled from the spec: [watcher.pause()], of the [FileWatcher] of
    [./chokidar], which is not part of the sources.  The pause state is
    one flag, and pausing is idempotent. *)
Definition watcherPause (s : Session) : Session :=
  setPaused true (emit WatcherPause s).

(** Modelled from the spec: [watcher.resume()], of the same [FileWatcher].
    It clears the flag. *)
Definition watcherResume (s : Session) : Session :=
  setPaused false (emit WatcherResume s).

(** Modelled from the spec: [watcher.addSilently(path)], of the same
    [FileWatcher].  It extends the set of watched paths, kept here as the
    list of the paths added. *)
Definition watcherAddSilently (path : string) (s : Session) : Session :=
  setWatched (watched s ++ [path]) (emit (WatcherAddSilently path) s).

(** *** Signals to the runner *)

(** Modelled from the spec: [sendSigterm(child)], of [./utils], which is
    not part of the sources.  It sends a termination signal to the process
    tree of the child and answers a promise; the promise is queued with
    what the caller chained on it, and settles in a later turn of the
    event loop, fulfilled or rejected. *)
Definition sendSigterm (pid : nat) (k : Continuation) (s : Session) : Session :=
  setPendingSigterms (pendingSigterms s ++ [(pid, k)]) (emit (SendSigterm pid) s).

(** The truth value of an optional boolean ([willTerminate?: boolean]). *)
Definition truthy (b : option bool) : bool := default false b.

(** The truth value of a string that may be [undefined]. *)
Definition truthyPath (p : option string) : option string :=
  match p with
  | Some EmptyString => None
  | _ => p
  end.

Section WithHost.

Variable host : Host.

(** The handle [startRunner] sets up: forked with a channel, the [exit]
    listener registered, [respawn] set when the configuration asks. *)
Definition forked : Process :=
  {| exited := false;
     stopping := false;
     respawn := if cfg_respawn (cfg host) then true else false;
     connected := Some true;
     exitListeners := [ExitOfStartRunner] |}.

(** [startRunner]: fork a child, register its [exit] listener, and wire
    its messages (the message handlers are [onRequired], [onError] and
    [onServerReady] below).  Answers the new handle. *)
Definition startRunner (s : Session) : nat * Session :=
  let pid := length (procs s) in
  let child := forked in
  let s1 := emit (Fork pid) (setProcs (procs s ++ [child]) s) in
  let s2 := match truthyPath (tsConfigPath host) with
            | Some p => watcherAddSilently p s1
            | None => s1
            end in
  (pid, emit WriteReadyFile s2).

(** [startRunnerDo]: [startRunner] with the [onError] callback of the
    closure. *)
Definition startRunnerDo (s : Session) : nat * Session := startRunner s.

(** [stopRunner(child, willTerminate)]. *)
Definition stopRunner (child : nat) (willTerminate : option bool) (s : Session)
  : Session :=
  match procs s !! child with
  | None => s
  | Some p =>
      if exited p || stopping p then s
      else
        let p1 := mkProcess (exited p) true true (connected p) (exitListeners p) in
        let s1 := setProc child p1 s in
        match connected p with
        | Some false => s1
        | _ =>
            (* child.disconnect() *)
            let p2 := mkProcess (exited p1) (stopping p1) (respawn p1)
                                (Some false) (exitListeners p1) in
            let s2 := emit (Disconnect child) (setProc child p2 s1) in
            if truthy willTerminate then s2
            else sendSigterm child ThenLog s2
        end
  end.

(** [runner.on('exit', ...)] in [restartRunner]: the handle with that
    listener added. *)
Definition withRestartListener (p : Process) : Process :=
  mkProcess (exited p) (stopping p) (respawn p) (connected p)
            (exitListeners p ++ [ExitOfRestartRunner]).

(** [restartRunner(file)]. *)
Definition restartRunner (file : string) (s : Session) : Session :=
  let s1 := watcherPause s in
  let s2 := match tsConfigPath host with
            | Some p => if String.eqb file p then emit CompilerInit s1 else s1
            | None => s1
            end in
  let s3 := emit (CompileChanged file) s2 in
  if runnerRestarting s3 then s3
  else
    let s4 := setRunnerRestarting true s3 in
    match procs s4 !! runner s4 with
    | None => s4
    | Some p =>
        if negb (exited p) then
          (* runner.on('exit', ...) *)
          let p1 := withRestartListener p in
          stopRunner (runner s4) None (setProc (runner s4) p1 s4)
        else
          let '(pid, s5) := startRunnerDo s4 in
          setRunnerRestarting false (setRunner pid s5)
    end.

(** The calls [restartRunner] makes before it looks at
    [runnerRestarting]. *)
Definition restartPrelude (file : string) : list Effect :=
  WatcherPause ::
  match tsConfigPath host with
  | Some p => if String.eqb file p then [CompilerInit] else []
  | None => []
  end ++ [CompileChanged file].

(** The session after these calls. *)
Definition afterPrelude (file : string) (s : Session) : Session :=
  mkSession (procs s) (runner s) (runnerRestarting s) true (watched s)
            (pendingSigterms s) (resolved s) (terminated s)
            (trace s ++ restartPrelude file).

(** The listener [restartRunner] registers on the runner's [exit]. *)
Definition exitOfRestartRunner (s : Session) : Session :=
  let '(pid, s1) := startRunnerDo s in
  setRunnerRestarting false (setRunner pid s1).

(** The listener [startRunner] registers on the child's [exit].
    [process.exit] ends the session: nothing runs after it. *)
Definition exitOfStartRunner (child : nat) (code : option Z)
  (signal : option string) (s : Session) : Session :=
  match procs s !! child with
  | None => s
  | Some p =>
      if exited p then s
      else if negb (respawn p) then
        let c := default 1 code in
        setTerminated (Some c) (emit (ProcessExit c) s)
      else
        setProc child (mkProcess true (stopping p) (respawn p) (connected p)
                                 (exitListeners p)) s
  end.

Definition runExitListener (child : nat) (code : option Z)
  (signal : option string) (l : ExitListener) (s : Session) : Session :=
  match terminated s with
  | Some _ => s
  | None =>
      match l with
      | ExitOfStartRunner => exitOfStartRunner child code signal s
      | ExitOfRestartRunner => exitOfRestartRunner s
      end
  end.

(** The child emits [exit]: its listeners run in the order of their
    registration. *)
Definition emitExit (child : nat) (code : option Z) (signal : option string)
  (s : Session) : Session :=
  match procs s !! child with
  | None => s
  | Some p =>
      fold_left (fun acc l => runExitListener child code signal l acc)
                (exitListeners p) s
  end.

(** [isRegExpMatch(value)(regExp)]: [new RegExp(regExp).test(value)],
    [None] when the construction raises. *)
Definition isRegExpMatch (value regExp : string) : option bool :=
  regExpTest host regExp value.

(** [rules.some(isRegExpMatch(value))]: the rules are tried in order and
    the first that matches ends the search; a rule that is no regular
    expression raises when its turn comes. *)
Fixpoint someRegExpMatch (value : string) (rules : list string)
  : Completion bool :=
  match rules with
  | [] => Normal false
  | r :: rest =>
      match isRegExpMatch value r with
      | None => Throws r
      | Some true => Normal true
      | Some false => someRegExpMatch value rest
      end
  end.

(** The handler of the [required] message.  [isIgnored] is the constant
    of that name: the prefix test comes first, and [||] goes on to the
    regular expressions only when no rule is a prefix. *)
Definition isIgnored (required : string) : Completion bool :=
  if existsb (isPrefixOf required) (cfg_ignore (cfg host))
  then Normal true
  else someRegExpMatch required (cfg_ignore (cfg host)).

Definition depthOk (required : string) : bool :=
  (cfg_deps (cfg host) =? -1) || (getLevel required <=? cfg_deps (cfg host)).

(** When [isIgnored] raises, the exception leaves the handler before
    anything is added; what becomes of it is the host's matter (without
    a handler of uncaught exceptions the process ends, and then no
    event follows).  The session records it and is otherwise as it
    was. *)
Definition onRequired (required : string) (s : Session) : Session :=
  match isIgnored required with
  | Throws rule => emit (ThrowSyntaxError rule) s
  | Normal ignored =>
      if negb ignored && depthOk required
      then watcherAddSilently required s
      else s
  end.

(** The handler of the [error] message, with the [onError] callback:
    the stop is asked of the current runner. *)
Definition onError (willTerminate : option bool) (s : Session) : Session :=
  let s1 := emit ConsoleError s in
  watcherResume (stopRunner (runner s1) willTerminate s1).

(** The handler of the readiness message. *)
Definition onServerReady (s : Session) : Session :=
  emit EmitServerReady (watcherResume s).

(** [stopRunnerOnBeforeExit().then(() => resolve())], the body of the
    handlers of [SIGTERM] and [SIGINT]. *)
Definition onTerminationSignal (s : Session) : Session :=
  match procs s !! runner s with
  | None => s
  | Some p =>
      if exited p then setResolved true s
      else sendSigterm (runner s) ThenResolve s
  end.

(** A [sendSigterm] promise settles: a failure is warned of, and then the
    continuation runs. *)
Definition runContinuation (k : Continuation) (s : Session) : Session :=
  match k with
  | ThenLog => s
  | ThenResolve => setResolved true s
  end.

Definition settleSigterm (i : nat) (ok : bool) (s : Session) : Session :=
  match pendingSigterms s !! i with
  | None => s
  | Some (_, k) =>
      let s1 := setPendingSigterms (delete i (pendingSigterms s)) s in
      let s2 := if ok then s1 else emit WarnSigtermFailed s1 in
      runContinuation k s2
  end.

(** The core listener of the file watcher. *)
Definition isIgnoredByCoreListener : string -> bool :=
  Matcher.createPathMatcher (globMatch host)
    (Some (pluginIgnoreContributions host)) None.

Definition coreListener (file : string) (s : Session) : Session :=
  if isIgnoredByCoreListener file then s else restartRunner file s.

(** The channel of a child closes (the child disconnected or is dying):
    the host clears [connected] on the handle. *)
Definition channelClosed (child : nat) (s : Session) : Session :=
  match procs s !! child with
  | None => s
  | Some p =>
      setProc child (mkProcess (exited p) (stopping p) (respawn p) (Some false)
                               (exitListeners p)) s
  end.

(** *** The event loop *)
Inductive TermSignal := SIGTERM | SIGINT.

(** What the host can deliver to the session, one at a time: a
    notification of the file watcher to the core listener, a call of
    [restartRunner] by a listener, the exit of a child, a message of a
    child (to the one handler [ipc.on] registered for its type), a call
    of [compiler.stop], the closing of a child's channel, a termination
    signal, and the settlement of a [sendSigterm] promise. *)
Inductive Event :=
  | WatcherAll (file : string)
  | Restart (file : string)
  | ChildExit (child : nat) (code : option Z) (signal : option string)
  | RequiredMsg (child : nat) (required : string)
  | ErrorMsg (child : nat) (willTerminate : option bool)
  | ServerReadyMsg (child : nat)
  | CompilerStop (child : nat) (willTerminate : option bool)
  | ChannelClosed (child : nat)
  | GotSignal (sig : TermSignal)
  | SigtermSettled (i : nat) (ok : bool).

Definition hasChild (child : nat) (s : Session) : bool :=
  bool_decide (child < length (procs s))%nat.

Definition handle (ev : Event) (s : Session) : Session :=
  match ev with
  | WatcherAll file => coreListener file s
  | Restart file => restartRunner file s
  | ChildExit child code signal => emitExit child code signal s
  | RequiredMsg child required =>
      if hasChild child s then onRequired required s else s
  | ErrorMsg child willTerminate =>
      if hasChild child s then onError willTerminate s else s
  | ServerReadyMsg child =>
      if hasChild child s then onServerReady s else s
  | CompilerStop child willTerminate => stopRunner child willTerminate s
  | ChannelClosed child => channelClosed child s
  | GotSignal _ => onTerminationSignal s
  | SigtermSettled i ok => settleSigterm i ok s
  end.

(** After [process.exit] nothing is delivered any more. *)
Definition step (ev : Event) (s : Session) : Session :=
  match terminated s with
  | Some _ => s
  | None => handle ev s
  end.

Definition run (evs : list Event) (s : Session) : Session :=
  fold_left (fun acc ev => step ev acc) evs s.

(** The session right after [createWatcher] has set up its state: the
    watcher runs, the first runner is started. *)
Definition empty : Session :=
  mkSession [] O false false [] [] false None [].

Definition boot : Session :=
  let '(pid, s) := startRunnerDo empty in
  setRunner pid s.

End WithHost.

(** Counting in traces. *)
Definition isFork (e : Effect) : bool :=
  match e with Fork _ => true | _ => false end.

Definition isSigtermTo (pid : nat) (e : Effect) : bool :=
  match e with SendSigterm q => Nat.eqb q pid | _ => false end.

Definition isSigterm (e : Effect) : bool :=
  match e with SendSigterm _ => true | _ => false end.

Definition isDisconnect (e : Effect) : bool :=
  match e with Disconnect _ => true | _ => false end.

Definition countEffects (f : Effect -> bool) (s : Session) : nat :=
  length (List.filter f (trace s)).

Definition spawns (s : Session) : nat := countEffects isFork s.

(** A termination signal went to [child] between [s] and [s']. *)
Definition sigtermSent (child : nat) (s s' : Session) : bool :=
  (countEffects (isSigtermTo child) s <? countEffects (isSigtermTo child) s')%nat.


(** The states a session can be in: those the events lead to from [boot]. *)
Definition reachable (host : Host) (s : Session) : Prop :=
  exists evs, s = run host evs (boot host).

(** *** The invariant of the session

    What every reachable session satisfies: [runner] points to an object
    of the store; a child that is stopping is to be respawned, and the
    first listener of its [exit] is the one of [startRunner]; the runner
    has that listener only, and the one of [restartRunner] after it
    exactly while a restart is in flight. *)
Definition procOk (p : Process) : Prop :=
  (stopping p = true -> respawn p = true)
  /\ exists rest, exitListeners p = ExitOfStartRunner :: rest.

Definition runnerListeners (restarting : bool) : list ExitListener :=
  ExitOfStartRunner :: (if restarting then [ExitOfRestartRunner] else []).

Definition Inv (s : Session) : Prop :=
  (runner s < length (procs s))%nat
  /\ Forall procOk (procs s)
  /\ exists p, procs s !! runner s = Some p
               /\ exitListeners p = runnerListeners (runnerRestarting s).

(** While a restart is in flight, the runner is to be respawned. *)
Definition InFlightOk (s : Session) : Prop :=
  runnerRestarting s = true ->
  exists p, procs s !! runner s = Some p /\ respawn p = true.

(** [required] matches an ignore rule of the configuration, as a prefix
    or as a regular expression. *)
Definition ignoredBy (host : Host) (required : string) : Prop :=
  exists r, In r (cfg_ignore (cfg host))
            /\ ((exists rest, required = r +:+ rest)
                \/ regExpTest host r required = Some true).


(** The nesting level of [required] is within the bound of the
    configuration, [-1] being no bound. *)
Definition withinDepth (host : Host) (required : string) : Prop :=
  cfg_deps (cfg host) = -1 \/ getLevel required <= cfg_deps (cfg host).





(** The invariant and the in-flight condition together. *)
Definition Good (s : Session) : Prop := Inv s /\ InFlightOk s.

(** The calls of a coalesced restart. *)
Definition isPauseOrCompile (e : Effect) : bool :=
  match e with
  | WatcherPause | CompilerInit | CompileChanged _ => true
  | _ => false
  end.

(** *** Notions for the facts on whole runs *)

Definition isDisconnectOf (pid : nat) (e : Effect) : bool :=
  match e with Disconnect q => Nat.eqb q pid | _ => false end.

Definition isGotSignal (ev : Event) : bool :=
  match ev with GotSignal _ => true | _ => false end.

(** How the object behind a handle changes over time: its flags are set
    and never cleared, a closed channel stays closed, and listeners are
    added after the ones it has. *)
Definition grows (p p' : Process) : Prop :=
  (exited p = true -> exited p' = true)
  /\ (stopping p = true -> stopping p' = true)
  /\ (respawn p = true -> respawn p' = true)
  /\ (connected p = Some false -> connected p' = Some false)
  /\ exists l, exitListeners p' = exitListeners p ++ l.

(** The store of [s'] continues the store of [s]: no handle is lost,
    every object of [s] has grown, and the new ones were forked by
    [startRunner] and have grown since. *)
Definition storeGrows (host : Host) (s s' : Session) : Prop :=
  (length (procs s) <= length (procs s'))%nat
  /\ forall q p',
       procs s' !! q = Some p' ->
       match procs s !! q with
       | Some p => grows p p'
       | None => grows (forked host) p'
       end.

(** The exit an event notifies is the first one of its child. *)
Definition firstExit (ev : Event) (s : Session) : bool :=
  match ev with
  | ChildExit child _ _ =>
      match procs s !! child with
      | Some p => negb (exited p)
      | None => true
      end
  | _ => true
  end.

(** A run in which no child's exit is notified twice. *)
Fixpoint exitsOnce (host : Host) (evs : list Event) (s : Session) : Prop :=
  match evs with
  | [] => True
  | ev :: evs' => firstExit ev s = true /\ exitsOnce host evs' (step host ev s)
  end.

(** Every child but the runner has exited. *)
Definition othersExited (s : Session) : Prop :=
  forall q p, procs s !! q = Some p -> q <> runner s -> exited p = true.

(** The runner is the child forked last, and every fork is in the store. *)
Definition runnerIsNewest (s : Session) : Prop :=
  S (runner s) = length (procs s) /\ spawns s = length (procs s).

(** [1] when the child behind [c] is stopping, [0] otherwise. *)
Definition stoppingBit (c : nat) (s : Session) : nat :=
  match procs s !! c with
  | Some p => if stopping p then 1%nat else 0%nat
  | None => 0%nat
  end.

(** Between [s] and [s'] the effects that [f] counts grew by no more
    than the child [c] became stopping, and [n] besides. *)
Definition stopBounded (f : Effect -> bool) (c n : nat) (s s' : Session) : Prop :=
  (countEffects f s' + stoppingBit c s
   <= countEffects f s + stoppingBit c s' + n)%nat.

(** The number of termination signals among the events. *)
Definition countSignals (evs : list Event) : nat :=
  length (List.filter isGotSignal evs).

(** The paths of the [addSilently] calls among the effects, in order. *)
Definition pathsOf (l : list Effect) : list string :=
  flat_map (fun e => match e with WatcherAddSilently p => [p] | _ => [] end) l.

(** What the code hands to [addSilently]: the path of the TypeScript
    configuration, or a path no ignore rule blocks and whose nesting
    level is within the bound. *)
Definition watchable (host : Host) (path : string) : Prop :=
  truthyPath (tsConfigPath host) = Some path
  \/ (~ ignoredBy host path /\ withinDepth host path).

(** From [s] to [s'] the trace grew, and the watched paths by the paths
    added silently in between, all of them [watchable]. *)
Definition adds (host : Host) (s s' : Session) : Prop :=
  exists l, trace s' = trace s ++ l
            /\ watched s' = watched s ++ pathsOf l
            /\ Forall (watchable host) (pathsOf l).

(** The session is resolved, or a delivery is under way whose
    continuation resolves it. *)
Definition resolving (s : Session) : Prop :=
  resolved s = true \/ exists pid, In (pid, ThenResolve) (pendingSigterms s).

(** From [s] to [s'] the resolution is untouched, and the deliveries
    under way grew by ones that only log. *)
Definition onlyLogs (s s' : Session) : Prop :=
  resolved s' = resolved s
  /\ exists l, pendingSigterms s' = pendingSigterms s ++ l
               /\ Forall (fun x : nat * Continuation => x.2 = ThenLog) l.

(** *** The contributions of the plugins *)

(** What [createWatcher] reads of a plugin: [watchFilePatterns] and
    [listeners?.app?.ignoreFilePatterns] of
    [p.dev.addToWatcherSettings]; a missing list is [None]. *)
Record Plugin := mkPlugin {
  watchFilePatterns : option (list string);
  appIgnoreFilePatterns : option (list string)
}.

(** [opts.plugins.reduce((patterns, p) => patterns.concat(... ?? []), [])]. *)
Definition pluginWatchContributions (plugins : list Plugin) : list string :=
  fold_left (fun patterns p => patterns ++ default [] (watchFilePatterns p))
            plugins [].

(** The same reduction over the ignore patterns of the core listener. *)
Definition pluginIgnoreContributionsOf (plugins : list Plugin) : list string :=
  fold_left (fun patterns p => patterns ++ default [] (appIgnoreFilePatterns p))
            plugins [].

(** [[opts.layout.sourceRoot, ...pluginWatchContributions]], the paths
    the file watcher is created on. *)
Definition watchRoots (sourceRoot : string) (plugins : list Plugin)
  : list string :=
  sourceRoot :: pluginWatchContributions plugins.

(** *** Sample hosts, for the examples *)

(** A regular-expression engine for the patterns of the examples: a
    pattern with an opening parenthesis and no closing one is no regular
    expression, and a pattern without special characters matches the
    values it occurs in. *)
Definition literalRegExp (r v : string) : option bool :=
  if (0 <=? indexOf r "(") && (indexOf r ")" <? 0) then None
  else Some (0 <=? indexOf v r).

(** A glob engine for patterns without wildcards. *)
Definition literalGlob (pattern path : string) : bool := String.eqb pattern path.

Definition sampleHost : Host :=
  mkHost (mkCfg false 1 ["/proj/dist"]) (Some "tsconfig.json") ["README.md"]
         literalRegExp literalGlob.

Definition respawningHost : Host :=
  mkHost (mkCfg true (-1) []) None [] literalRegExp literalGlob.


End Supervisor.

(** * Facts *)

(** ** Strings *)
Module JsStringFacts.
Import JsString.

Lemma startsWith_app (n t : string) : startsWith n (n +:+ t) = true.
Proof.
  induction n as [|a n IH]; simpl; [reflexivity|].
  rewrite Ascii.eqb_refl. exact IH.
Qed.

Lemma startsWith_inv (n s : string) :
  startsWith n s = true -> exists t, s = n +:+ t.
Proof.
  revert s. induction n as [|a n IH]; intros s H.
  - exists s. reflexivity.
  - destruct s as [|b s]; simpl in H; [discriminate|].
    apply andb_true_iff in H as [Hab Hn].
    apply Ascii.eqb_eq in Hab. subst b.
    destruct (IH _ Hn) as [t ->]. exists t. reflexivity.
Qed.

Lemma startsWith_length (n s : string) :
  startsWith n s = true -> (String.length n <= String.length s)%nat.
Proof.
  revert s. induction n as [|a n IH]; intros s H; simpl; [lia|].
  destruct s as [|b s]; simpl in H; [discriminate|].
  apply andb_true_iff in H as [_ Hn]. apply IH in Hn. simpl. lia.
Qed.

Lemma dropS_empty (k : nat) : dropS k EmptyString = EmptyString.
Proof. destruct k; reflexivity. Qed.

(** No occurrence at all, said by [occurrences] and index by index. *)
Lemma occurrences_zero (n s : string) :
  occurrences n s = O <-> forall j, startsWith n (dropS j s) = false.
Proof.
  induction s as [|c s IH]; simpl.
  - split.
    + intros H j. rewrite dropS_empty. destruct (startsWith n ""); [discriminate|reflexivity].
    + intros H. specialize (H O). simpl in H. rewrite H. reflexivity.
  - split.
    + intros H j. destruct (startsWith n (String c s)) eqn:E; [discriminate|].
      simpl in H. destruct j as [|j]; [exact E|]. simpl. apply IH. exact H.
    + intros H. pose proof (H O) as H0. simpl in H0. rewrite H0. simpl.
      apply IH. intros j. apply (H (S j)).
Qed.

Lemma occurrences_short (n s : string) :
  (String.length s < String.length n)%nat -> occurrences n s = O.
Proof.
  induction s as [|c s IH]; intros H; simpl.
  - destruct (startsWith n "") eqn:E; [|reflexivity].
    apply startsWith_length in E. simpl in *. lia.
  - destruct (startsWith n (String c s)) eqn:E.
    + apply startsWith_length in E. simpl in *. lia.
    + simpl. apply IH. simpl in H. lia.
Qed.

(** [lastIndexOf] answers [-1] or an index of the string. *)
Lemma lastIndexOf_range (s n : string) :
  lastIndexOf s n = -1 \/
  (0 <= lastIndexOf s n <= Z.of_nat (String.length s)).
Proof.
  induction s as [|c s IH]; simpl.
  - destruct (startsWith n ""); [right; lia | left; reflexivity].
  - destruct (0 <=? lastIndexOf s n) eqn:E.
    + right. apply Z.leb_le in E. destruct IH as [IH|IH]; lia.
    + destruct (startsWith n (String c s)); [right; lia | left; reflexivity].
Qed.

(** [lastIndexOf] answers [-1] exactly when there is no occurrence. *)
Lemma lastIndexOf_none (s n : string) :
  lastIndexOf s n = -1 <-> occurrences n s = O.
Proof.
  induction s as [|c s IH]; simpl.
  - destruct (startsWith n ""); split; intros; (discriminate || reflexivity || lia).
  - pose proof (lastIndexOf_range s n) as R.
    destruct (0 <=? lastIndexOf s n) eqn:E.
    + apply Z.leb_le in E. split; intros H; [lia|].
      exfalso. assert (occurrences n s = O) as H0 by lia.
      apply IH in H0. lia.
    + apply Z.leb_gt in E.
      assert (lastIndexOf s n = -1) as H1 by lia.
      apply IH in H1. rewrite H1.
      destruct (startsWith n (String c s)); split; intros; (discriminate || reflexivity || lia).
Qed.

Lemma startsWith_nonempty_nil (n : string) :
  n <> EmptyString -> startsWith n EmptyString = false.
Proof. destruct n; [congruence | reflexivity]. Qed.

(** When it answers an index, [n] occurs there and nowhere after. *)
Lemma lastIndexOf_last (s n : string) (i : nat) :
  n <> EmptyString ->
  lastIndexOf s n = Z.of_nat i ->
  startsWith n (dropS i s) = true /\
  forall j, (i < j)%nat -> startsWith n (dropS j s) = false.
Proof.
  intros Hn. revert i. induction s as [|c s IH]; intros i; simpl.
  - rewrite (startsWith_nonempty_nil n Hn). lia.
  - pose proof (lastIndexOf_range s n) as R.
    destruct (0 <=? lastIndexOf s n) eqn:E.
    + apply Z.leb_le in E. intros H.
      destruct i as [|i]; [lia|].
      destruct (IH i) as [IH1 IH2]; [lia|].
      split; [exact IH1|].
      intros j Hj. destruct j as [|j]; [lia|]. simpl. apply IH2. lia.
    + apply Z.leb_gt in E.
      assert (lastIndexOf s n = -1) as H1 by lia.
      apply lastIndexOf_none in H1.
      destruct (startsWith n (String c s)) eqn:Es; intros H; [|lia].
      assert (i = O) as -> by lia. split; [exact Es|].
      intros j Hj. destruct j as [|j]; [lia|]. simpl.
      apply occurrences_zero. exact H1.
Qed.

Lemma substring_0_cons (k : nat) (c : ascii) (s : string) :
  String.substring 0 (S k) (String c s) = String c (String.substring 0 k s).
Proof. reflexivity. Qed.

Lemma substring_0_length (k : nat) (s : string) :
  String.length (String.substring 0 k s) = Nat.min k (String.length s).
Proof.
  revert k. induction s as [|c s IH]; intros [|k]; simpl; try reflexivity.
  rewrite IH. reflexivity.
Qed.

(** A prefix that is long enough decides [startsWith] as the string does. *)
Lemma startsWith_substring (n s : string) (k : nat) :
  (String.length n <= k)%nat ->
  startsWith n (String.substring 0 k s) = startsWith n s.
Proof.
  revert s k. induction n as [|a n IH]; intros s k H; [reflexivity|].
  simpl in H. destruct k as [|k]; [lia|].
  destruct s as [|b s]; [reflexivity|].
  rewrite substring_0_cons. simpl. rewrite IH by lia. reflexivity.
Qed.

(** Cutting a string right after its last occurrence of [n] loses no
    occurrence. *)
Lemma occurrences_upto_last (n s : string) (i : nat) :
  n <> EmptyString ->
  startsWith n (dropS i s) = true ->
  (forall j, (i < j)%nat -> startsWith n (dropS j s) = false) ->
  occurrences n (String.substring 0 (i + String.length n) s) = occurrences n s.
Proof.
  intros Hn. revert i. induction s as [|c s IH]; intros i Hi Hlast.
  - rewrite dropS_empty, (startsWith_nonempty_nil n Hn) in Hi. discriminate.
  - destruct i as [|i].
    + simpl in Hi. simpl Nat.add.
      destruct (String.length n) as [|L] eqn:EL.
      { destruct n; [congruence | discriminate]. }
      rewrite substring_0_cons.
      change (occurrences n (String c (substring 0 L s)))
        with ((if startsWith n (String c (substring 0 L s)) then 1 else 0)
              + occurrences n (substring 0 L s))%nat.
      change (occurrences n (String c s))
        with ((if startsWith n (String c s) then 1 else 0) + occurrences n s)%nat.
      rewrite <- (substring_0_cons L c s).
      rewrite startsWith_substring by lia.
      rewrite (occurrences_short n (substring 0 L s)).
      2:{ rewrite substring_0_length. lia. }
      assert (occurrences n s = O) as ->; [|reflexivity].
      apply occurrences_zero. intros j. apply (Hlast (S j)). lia.
    + simpl in Hi. simpl Nat.add. rewrite substring_0_cons.
      change (occurrences n (String c (substring 0 (i + String.length n) s)))
        with ((if startsWith n (String c (substring 0 (i + String.length n) s))
               then 1 else 0)
              + occurrences n (substring 0 (i + String.length n) s))%nat.
      change (occurrences n (String c s))
        with ((if startsWith n (String c s) then 1 else 0) + occurrences n s)%nat.
      rewrite <- (substring_0_cons (i + String.length n) c s).
      rewrite startsWith_substring by lia.
      rewrite (IH i Hi); [reflexivity|].
      intros j Hj. apply (Hlast (S j)). lia.
Qed.

(** [indexOf] answers [0] exactly on a prefix. *)
Lemma indexOf_zero (s n : string) :
  indexOf s n = 0 <-> startsWith n s = true.
Proof.
  destruct s as [|c s]; simpl.
  - destruct (startsWith n ""); split; intros; (discriminate || reflexivity).
  - destruct (startsWith n (String c s)); split; intros H;
      try reflexivity; try discriminate.
    exfalso. destruct (indexOf s n <? 0) eqn:E; [lia|].
    apply Z.ltb_ge in E. lia.
Qed.

End JsStringFacts.

(** ** Paths *)
Module PathsFacts.
Import JsString Paths JsStringFacts.

(** After an occurrence of [node_modules] the next eleven characters
    start no other one. *)
Lemma node_modules_no_overlap (c : ascii) (s : string) :
  startsWith node_modules (String c s) = true ->
  occurrences node_modules s = occurrences node_modules (dropS 11 s).
Proof.
  intros H. apply startsWith_inv in H as [t H].
  unfold node_modules in H. simpl in H. injection H as _ ->.
  reflexivity.
Qed.

Lemma splitLoop_length (s : string) :
  forall (k : nat) (cur : string),
    length (splitLoop node_modules k cur s)
    = S (occurrences node_modules (dropS k s)).
Proof.
  induction s as [|c s IH]; intros k cur.
  - rewrite dropS_empty. reflexivity.
  - destruct k as [|k].
    + cbn [splitLoop dropS].
      change (occurrences node_modules (String c s))
        with ((if startsWith node_modules (String c s) then 1 else 0)
              + occurrences node_modules s)%nat.
      destruct (startsWith node_modules (String c s)) eqn:E.
      * cbn [length]. rewrite IH.
        rewrite (node_modules_no_overlap c s E). reflexivity.
      * rewrite IH. reflexivity.
    + cbn [splitLoop dropS]. apply IH.
Qed.

Lemma getLevel_occurrences_prefix (mod_ : string) :
  getLevel mod_ = Z.of_nat (occurrences node_modules (getPrefix mod_)).
Proof.
  unfold getLevel, split, node_modules at 1.
  fold node_modules. rewrite splitLoop_length. simpl dropS. lia.
Qed.

Lemma startsWith_dropS_length (n s : string) (i : nat) :
  n <> EmptyString ->
  startsWith n (dropS i s) = true ->
  (i + String.length n <= String.length s)%nat.
Proof.
  intros Hn. revert i. induction s as [|c s IH]; intros i H.
  - rewrite dropS_empty, (startsWith_nonempty_nil n Hn) in H. discriminate.
  - destruct i as [|i].
    + apply startsWith_length in H. simpl in *. lia.
    + simpl in H. apply IH in H. simpl. lia.
Qed.

Lemma node_modules_nonempty : node_modules <> EmptyString.
Proof. discriminate. Qed.

(** [getPrefix] on a path without [node_modules]. *)
Lemma getPrefix_none (mod_ : string) :
  occurrences node_modules mod_ = O -> getPrefix mod_ = EmptyString.
Proof.
  intros H. apply lastIndexOf_none in H.
  unfold getPrefix. rewrite H. reflexivity.
Qed.

(** [getPrefix] on a path whose last [node_modules] is at index [i]: the
    path up to the end of that occurrence. *)
Lemma getPrefix_last (mod_ : string) (i : nat) :
  startsWith node_modules (dropS i mod_) = true ->
  (forall j, (i < j)%nat -> startsWith node_modules (dropS j mod_) = false) ->
  getPrefix mod_ = String.substring 0 (i + 12) mod_.
Proof.
  intros Hi Hlast.
  pose proof (startsWith_dropS_length _ _ _ node_modules_nonempty Hi) as Hlen.
  destruct (lastIndexOf_range mod_ node_modules) as [R|R].
  - apply lastIndexOf_none in R.
    rewrite (proj1 (occurrences_zero _ _) R i) in Hi. discriminate.
  - destruct (lastIndexOf_last mod_ node_modules
                (Z.to_nat (lastIndexOf mod_ node_modules))
                node_modules_nonempty) as [Hk Hklast]; [lia|].
    assert (Z.to_nat (lastIndexOf mod_ node_modules) = i) as Hki.
    { destruct (Nat.lt_trichotomy (Z.to_nat (lastIndexOf mod_ node_modules)) i)
        as [Hlt|[Heq|Hgt]]; [|exact Heq|].
      - rewrite (Hklast i Hlt) in Hi. discriminate.
      - rewrite (Hlast _ Hgt) in Hk. discriminate. }
    unfold getPrefix.
    assert (lastIndexOf mod_ node_modules = Z.of_nat i) as -> by lia.
    unfold truthyNumber, bitNot.
    replace (Z.lnot (Z.of_nat i) =? 0) with false.
    2:{ symmetry. apply Z.eqb_neq. unfold Z.lnot. lia. }
    simpl negb. cbv iota.
    unfold slice. simpl String.length in *.
    change (0 <? 0) with false. cbv iota.
    rewrite Z.min_l by lia.
    replace (Z.of_nat i + Z.of_nat 12 <? 0) with false
      by (symmetry; apply Z.ltb_ge; lia).
    rewrite Z.min_l by lia.
    f_equal. lia.
Qed.

(** The level of a path is the number of its [node_modules]. *)
Lemma getLevel_occurrences (mod_ : string) :
  getLevel mod_ = Z.of_nat (occurrences node_modules mod_).
Proof.
  rewrite getLevel_occurrences_prefix.
  destruct (lastIndexOf_range mod_ node_modules) as [R|R].
  - apply lastIndexOf_none in R. rewrite (getPrefix_none _ R), R. reflexivity.
  - destruct (lastIndexOf_last mod_ node_modules
                (Z.to_nat (lastIndexOf mod_ node_modules))
                node_modules_nonempty) as [Hk Hklast]; [lia|].
    rewrite (getPrefix_last _ _ Hk Hklast).
    rewrite <- (occurrences_upto_last node_modules mod_ _
                  node_modules_nonempty Hk Hklast).
    reflexivity.
Qed.

End PathsFacts.

(** ** The matcher *)
Module MatcherFacts.
Import Matcher.

Section WithGlob.

Variable glob : string -> string -> bool.

Lemma filter_negated_bangs (ignore : list string) :
  List.filter isNegated (map bang ignore) = map bang ignore
  /\ List.filter (fun m => negb (isNegated m)) (map bang ignore) = [].
Proof.
  induction ignore as [|p ignore [IH1 IH2]]; [split; reflexivity|].
  simpl. rewrite IH1, IH2. split; reflexivity.
Qed.

Lemma filter_negated_plain (allow : list string) :
  Forall (fun p => isNegated p = false) allow ->
  List.filter isNegated allow = []
  /\ List.filter (fun m => negb (isNegated m)) allow = allow.
Proof.
  induction 1 as [|p allow Hp _ [IH1 IH2]]; [split; reflexivity|].
  simpl. rewrite Hp, IH1, IH2. split; reflexivity.
Qed.

Lemma dropBang_bangs (ignore : list string) :
  map dropBang (map bang ignore) = ignore.
Proof.
  induction ignore as [|p ignore IH]; [reflexivity|].
  simpl. rewrite IH. reflexivity.
Qed.

(** The matcher, for allow patterns that are not negations themselves. *)
Lemma createPathMatcher_unfold (allow ignore : list string) (path : string) :
  Forall (fun p => isNegated p = false) allow ->
  createPathMatcher glob (Some allow) (Some ignore) path
  = if existsb (fun g => glob g path) ignore then false
    else existsb (fun p => glob p path) allow.
Proof.
  intros Hallow. unfold createPathMatcher, anymatch. simpl.
  rewrite !List.filter_app.
  destruct (filter_negated_bangs ignore) as [-> ->].
  destruct (filter_negated_plain allow Hallow) as [-> ->].
  simpl. rewrite dropBang_bangs, app_nil_r. reflexivity.
Qed.

Lemma existsb_false_iff (f : string -> bool) (l : list string) :
  existsb f l = false <-> forall p, In p l -> f p = false.
Proof.
  induction l as [|x l IH]; simpl.
  - split; [intros _ p [] | reflexivity].
  - rewrite orb_false_iff, IH. split.
    + intros [Hx Hl] p [<-|Hp]; auto.
    + intros H. split; [apply H; left; reflexivity|].
      intros p Hp. apply H. right. exact Hp.
Qed.

End WithGlob.

(** C6, as the code has it.  For allow patterns that do not start with
    [!], a path tests true exactly when some allow pattern matches it and
    no ignore pattern does.  With an empty or missing allow list no path
    tests true: the core listener, which takes the matcher of the plugins'
    ignore patterns for its test of what to ignore, then ignores nothing. *)
Theorem createPathMatcher_semantics
  (glob : string -> string -> bool) (allow ignore : list string) (path : string) :
  Forall (fun p => isNegated p = false) allow ->
  (createPathMatcher glob (Some allow) (Some ignore) path = true
   <-> (exists p, In p allow /\ glob p path = true)
       /\ (forall p, In p ignore -> glob p path = false))
  /\ createPathMatcher glob (Some []) (Some ignore) path = false
  /\ createPathMatcher glob None (Some ignore) path = false
  /\ createPathMatcher glob (Some []) None path = false.
Proof.
  intros Hallow. split; [|split; [|split]].
  - rewrite (createPathMatcher_unfold glob allow ignore path Hallow).
    rewrite <- (existsb_false_iff (fun g => glob g path) ignore).
    rewrite <- (List.existsb_exists (fun p => glob p path) allow).
    destruct (existsb (fun g => glob g path) ignore); split.
    + discriminate.
    + intros [_ H]. discriminate H.
    + auto.
    + tauto.
  - rewrite (createPathMatcher_unfold glob [] ignore path ltac:(constructor)).
    simpl. destruct (existsb _ ignore); reflexivity.
  - change (createPathMatcher glob None (Some ignore) path)
      with (createPathMatcher glob (Some []) (Some ignore) path).
    rewrite (createPathMatcher_unfold glob [] ignore path ltac:(constructor)).
    simpl. destruct (existsb _ ignore); reflexivity.
  - reflexivity.
Qed.

(** A plugin listener that allows the files of [src] by name and ignores
    one of them. *)
Lemma createPathMatcher_semantics_witness :
  createPathMatcher Supervisor.literalGlob
    (Some ["src/app.ts"; "src/gen.ts"]) (Some ["src/gen.ts"]) "src/app.ts" = true
  /\ createPathMatcher Supervisor.literalGlob
       (Some ["src/app.ts"; "src/gen.ts"]) (Some ["src/gen.ts"]) "src/gen.ts" = false.
Proof.
  split.
  - apply (createPathMatcher_semantics Supervisor.literalGlob
             ["src/app.ts"; "src/gen.ts"] ["src/gen.ts"] "src/app.ts").
    + repeat constructor.
    + split.
      * exists "src/app.ts". split; [left; reflexivity | reflexivity].
      * intros p [<-|[]]. reflexivity.
  - apply not_true_is_false. intros H.
    apply (createPathMatcher_semantics Supervisor.literalGlob
             ["src/app.ts"; "src/gen.ts"] ["src/gen.ts"] "src/gen.ts") in H.
    + destruct H as [_ H]. specialize (H "src/gen.ts" (or_introl eq_refl)).
      discriminate H.
    + repeat constructor.
Defined.

(** C6, as stated, fails: with an empty allow list and no ignore pattern
    at all, a path matches no ignore pattern and still tests false, not
    true.  This is the matcher of the core listener when no plugin
    contributes a pattern. *)
Lemma createPathMatcher_empty_allow_matches_nothing :
  existsb (fun p => Supervisor.literalGlob p "src/app.ts") [] = false
  /\ createPathMatcher Supervisor.literalGlob (Some []) (Some []) "src/app.ts"
     = false
  /\ Supervisor.isIgnoredByCoreListener Supervisor.respawningHost "src/app.ts"
     = false.
Proof. split; [|split]; reflexivity. Qed.

End MatcherFacts.

(** ** The supervisor *)
Module SupervisorFacts.
Import JsString Paths JsStringFacts PathsFacts Supervisor.

(** *** [stopRunner] *)

Lemma lookup_setProc_eq (c : nat) (p q : Process) (s : Session) :
  procs s !! c = Some q -> procs (setProc c p s) !! c = Some p.
Proof.
  intros H. simpl. apply list_lookup_insert_eq.
  apply lookup_lt_Some in H. exact H.
Qed.

Lemma lookup_setProc_ne (c d : nat) (p : Process) (s : Session) :
  c <> d -> procs (setProc c p s) !! d = procs s !! d.
Proof. intros H. simpl. apply list_lookup_insert_ne. exact H. Qed.

(** A stop on a child that has exited or is stopping does nothing. *)
Lemma stopRunner_noop (c : nat) (w : option bool) (s : Session) (p : Process) :
  procs s !! c = Some p ->
  exited p || stopping p = true ->
  stopRunner c w s = s.
Proof. intros H1 H2. unfold stopRunner. rewrite H1, H2. reflexivity. Qed.

(** A stop on a live child leaves it stopping, to be respawned, with the
    same [exited] flag and the same listeners. *)
Lemma stopRunner_marks (c : nat) (w : option bool) (s : Session) (p : Process) :
  procs s !! c = Some p ->
  exited p = false ->
  stopping p = false ->
  exists p',
    procs (stopRunner c w s) !! c = Some p'
    /\ stopping p' = true /\ respawn p' = true
    /\ exited p' = false
    /\ exitListeners p' = exitListeners p.
Proof.
  intros H1 H2 H3. unfold stopRunner. rewrite H1, H2, H3. simpl.
  pose proof (lookup_lt_Some _ _ _ H1) as Hlt.
  destruct (connected p) as [[|]|]; [destruct (truthy w)| |destruct (truthy w)];
    simpl; eexists;
    (split;
     [ repeat first [ rewrite list_lookup_insert_eq
                    | rewrite length_insert ]; [reflexivity | try exact Hlt ..]
     | simpl; auto ]).
Qed.

(** What a stop leaves alone. *)
Lemma stopRunner_frame (c : nat) (w : option bool) (s : Session) :
  runner (stopRunner c w s) = runner s
  /\ runnerRestarting (stopRunner c w s) = runnerRestarting s
  /\ paused (stopRunner c w s) = paused s
  /\ watched (stopRunner c w s) = watched s
  /\ resolved (stopRunner c w s) = resolved s
  /\ terminated (stopRunner c w s) = terminated s
  /\ length (procs (stopRunner c w s)) = length (procs s)
  /\ spawns (stopRunner c w s) = spawns s.
Proof.
  unfold stopRunner.
  destruct (procs s !! c) as [p|]; [|tauto].
  destruct (exited p || stopping p); [tauto|].
  destruct (connected p) as [[|]|]; [destruct (truthy w)| |destruct (truthy w)];
    simpl; rewrite ?length_insert;
    unfold spawns, countEffects; simpl;
    rewrite ?List.filter_app; simpl; rewrite ?app_nil_r; tauto.
Qed.

Lemma stopRunner_other (c d : nat) (w : option bool) (s : Session) :
  c <> d -> procs (stopRunner c w s) !! d = procs s !! d.
Proof.
  intros Hne. unfold stopRunner.
  destruct (procs s !! c) as [p|]; [|reflexivity].
  destruct (exited p || stopping p); [reflexivity|].
  destruct (connected p) as [[|]|]; [destruct (truthy w)| |destruct (truthy w)];
    simpl; rewrite ?list_lookup_insert_ne by exact Hne; reflexivity.
Qed.

Lemma countEffects_trace_app (f : Effect -> bool) (s s' : Session) (l : list Effect) :
  trace s' = trace s ++ l ->
  countEffects f s' = (countEffects f s + length (List.filter f l))%nat.
Proof.
  intros H. unfold countEffects. rewrite H, List.filter_app, length_app. reflexivity.
Qed.

Lemma countEffects_trace_eq (f : Effect -> bool) (s s' : Session) :
  trace s' = trace s -> countEffects f s' = countEffects f s.
Proof. intros H. unfold countEffects. rewrite H. reflexivity. Qed.

(** The trace of a stop on a live child. *)
Lemma stopRunner_trace (c : nat) (w : option bool) (s : Session) (p : Process) :
  procs s !! c = Some p ->
  exited p = false ->
  stopping p = false ->
  trace (stopRunner c w s)
  = trace s ++
    match connected p with
    | Some false => []
    | _ => Disconnect c :: (if truthy w then [] else [SendSigterm c])
    end
  /\ pendingSigterms (stopRunner c w s)
     = pendingSigterms s ++
       match connected p with
       | Some false => []
       | _ => if truthy w then [] else [(c, ThenLog)]
       end.
Proof.
  intros H1 H2 H3. unfold stopRunner. rewrite H1, H2, H3. simpl.
  destruct (connected p) as [[|]|]; [destruct (truthy w)| |destruct (truthy w)];
    simpl; rewrite <- ?app_assoc, ?app_nil_r; split; reflexivity.
Qed.

Lemma stopRunner_connected (c : nat) (w : option bool) (s : Session) (p : Process) :
  procs s !! c = Some p ->
  exited p = false ->
  stopping p = false ->
  exists p', procs (stopRunner c w s) !! c = Some p' /\ connected p' = Some false.
Proof.
  intros H1 H2 H3. unfold stopRunner. rewrite H1, H2, H3. simpl.
  pose proof (lookup_lt_Some _ _ _ H1) as Hlt.
  destruct (connected p) as [[|]|] eqn:Ec;
    [destruct (truthy w)| |destruct (truthy w)];
    simpl; eexists;
    (split;
     [ repeat first [ rewrite list_lookup_insert_eq
                    | rewrite length_insert ]; [reflexivity | try exact Hlt ..]
     | simpl; auto ]).
Qed.

(** C3, as the code has it.  On a child that has neither exited nor is
    stopping, [stopRunner] sets [stopping] and [respawn] and leaves the
    channel disconnected.  When the channel was connected ([connected]
    undefined or true) it calls [disconnect], and then sends the
    termination signal if and only if [willTerminate] is not true.  When
    the channel was already closed ([connected] false) it neither
    disconnects nor signals, whatever [willTerminate] is. *)
Theorem stopRunner_signal_policy
  (s : Session) (child : nat) (willTerminate : option bool) (p : Process) :
  procs s !! child = Some p ->
  exited p = false ->
  stopping p = false ->
  let s' := stopRunner child willTerminate s in
  (exists p', procs s' !! child = Some p'
              /\ stopping p' = true /\ respawn p' = true
              /\ connected p' = Some false)
  /\ (connected p <> Some false ->
      trace s' = trace s ++ Disconnect child ::
                   (if truthy willTerminate then [] else [SendSigterm child])
      /\ (sigtermSent child s s' = true <-> truthy willTerminate = false))
  /\ (connected p = Some false ->
      trace s' = trace s /\ sigtermSent child s s' = false).
Proof.
  intros H1 H2 H3 s'. subst s'.
  destruct (stopRunner_marks child willTerminate s p H1 H2 H3)
    as (p' & Hp' & Hs & Hr & _ & _).
  destruct (stopRunner_connected child willTerminate s p H1 H2 H3)
    as (p'' & Hp'' & Hc).
  rewrite Hp' in Hp''. injection Hp'' as <-.
  destruct (stopRunner_trace child willTerminate s p H1 H2 H3) as [Ht _].
  split; [exists p'; auto|]. split.
  - intros Hconn.
    assert (trace (stopRunner child willTerminate s)
            = trace s ++ Disconnect child ::
                (if truthy willTerminate then [] else [SendSigterm child])) as Ht'.
    { rewrite Ht. destruct (connected p) as [[|]|]; congruence. }
    split; [exact Ht'|].
    unfold sigtermSent. rewrite (countEffects_trace_app _ _ _ _ Ht').
    destruct (truthy willTerminate); simpl.
    + rewrite Nat.add_0_r, Nat.ltb_irrefl. split; discriminate.
    + rewrite Nat.eqb_refl. simpl. split; [reflexivity|].
      intros _. apply Nat.ltb_lt. lia.
  - intros Hconn. rewrite Hconn in Ht. rewrite app_nil_r in Ht.
    split; [exact Ht|].
    unfold sigtermSent. rewrite (countEffects_trace_eq _ _ _ Ht).
    apply Nat.ltb_irrefl.
Qed.

(** The policy at work on the first runner of the sample host, whose
    channel is connected. *)
Lemma stopRunner_signal_policy_witness :
  let s := boot sampleHost in
  (sigtermSent 0 s (stopRunner 0 (Some false) s) = true
   <-> truthy (Some false) = false)
  /\ (sigtermSent 0 s (stopRunner 0 (Some true) s) = true
      <-> truthy (Some true) = false).
Proof.
  split.
  - apply (stopRunner_signal_policy (boot sampleHost) 0 (Some false)
             (forked sampleHost)); [reflexivity | reflexivity | reflexivity |].
    discriminate.
  - apply (stopRunner_signal_policy (boot sampleHost) 0 (Some true)
             (forked sampleHost)); [reflexivity | reflexivity | reflexivity |].
    discriminate.
Defined.

(** C3, as stated, fails: the channel of the first runner closes, then
    [stopRunner] is called with [willTerminate] false on that child, which
    has not exited and is not stopping; no termination signal is sent. *)
Lemma stopRunner_closed_channel_sends_no_signal :
  let s := run sampleHost [ChannelClosed 0] (boot sampleHost) in
  (exists p, procs s !! 0%nat = Some p /\ exited p = false /\ stopping p = false)
  /\ ~ (sigtermSent 0 s (stopRunner 0 (Some false) s) = true
        <-> truthy (Some false) = false).
Proof.
  split.
  - eexists. split; [reflexivity|]. split; reflexivity.
  - intros [_ H]. specialize (H eq_refl). discriminate H.
Qed.

(** C4.  A second [stopRunner] on the same child changes nothing: the
    session after two calls is the session after one, trace of effects
    included; and on a child that has exited or is stopping the call is
    the identity. *)
Theorem stopRunner_idempotent
  (s : Session) (child : nat) (w1 w2 : option bool) :
  stopRunner child w2 (stopRunner child w1 s) = stopRunner child w1 s
  /\ (forall p, procs s !! child = Some p ->
                exited p = true \/ stopping p = true ->
                stopRunner child w2 s = s).
Proof.
  split.
  - destruct (procs s !! child) as [p|] eqn:E.
    + destruct (exited p || stopping p) eqn:F.
      * rewrite (stopRunner_noop _ w1 _ _ E F).
        apply (stopRunner_noop _ _ _ _ E F).
      * apply orb_false_iff in F as [F1 F2].
        destruct (stopRunner_marks child w1 s p E F1 F2)
          as (p' & Hp' & Hs & _).
        apply (stopRunner_noop _ _ _ p' Hp').
        rewrite Hs. apply orb_true_r.
    + unfold stopRunner. rewrite E, E. reflexivity.
  - intros p E H. apply (stopRunner_noop _ _ _ p E).
    destruct H as [-> | ->]; [reflexivity | apply orb_true_r].
Qed.

(** Two stops of the first runner, by a restart and by an error callback:
    one disconnect and one signal in the trace. *)
Lemma stopRunner_idempotent_witness :
  let s := stopRunner 0 None (boot sampleHost) in
  stopRunner 0 (Some true) s = s
  /\ countEffects isSigterm (stopRunner 0 (Some false) s) = 1%nat.
Proof.
  split.
  - apply (proj2 (stopRunner_idempotent (stopRunner 0 None (boot sampleHost))
                    0 None (Some true))
             (mkProcess false true true (Some false) [ExitOfStartRunner])).
    + reflexivity.
    + right. reflexivity.
  - rewrite (proj1 (stopRunner_idempotent (boot sampleHost) 0 None (Some false))).
    reflexivity.
Defined.

(** *** The invariant *)
Section Invariant.

Variable host : Host.

Lemma Inv_ext (s s' : Session) :
  procs s' = procs s ->
  runner s' = runner s ->
  runnerRestarting s' = runnerRestarting s ->
  Inv s -> Inv s'.
Proof. unfold Inv. intros -> -> ->. tauto. Qed.

Lemma procOk_forked : procOk (forked host).
Proof. split; [discriminate | exists []; reflexivity]. Qed.

Lemma stopRunner_procs (c : nat) (w : option bool) (s : Session) :
  procs (stopRunner c w s) = procs s
  \/ exists p p',
       procs s !! c = Some p
       /\ procs (stopRunner c w s) = <[c := p']> (procs s)
       /\ stopping p' = true /\ respawn p' = true
       /\ exited p' = exited p
       /\ exitListeners p' = exitListeners p.
Proof.
  unfold stopRunner.
  destruct (procs s !! c) as [p|] eqn:E; [|left; reflexivity].
  destruct (exited p || stopping p); [left; reflexivity|].
  right. exists p.
  destruct (connected p) as [[|]|]; [destruct (truthy w)| |destruct (truthy w)];
    simpl; rewrite ?list_insert_insert_eq; eexists;
    (split; [reflexivity|]); (split; [reflexivity|]); simpl; auto.
Qed.

Lemma Inv_stopRunner (c : nat) (w : option bool) (s : Session) :
  Inv s -> Inv (stopRunner c w s).
Proof.
  intros (Hr & Hall & Hfresh).
  destruct (stopRunner_frame c w s) as (Er & Eb & _ & _ & _ & _ & El & _).
  destruct (stopRunner_procs c w s) as [E | (p & p' & Hp & E & Hs & Hre & _ & Hl)].
  - apply (Inv_ext s); auto. repeat split; auto.
  - unfold Inv. rewrite Er, Eb, El. split; [exact Hr|]. split.
    + rewrite E. apply Forall_insert; [exact Hall|].
      split; [auto|]. rewrite Hl.
      apply (Forall_lookup_1 _ _ _ _ Hall Hp).
    + destruct Hfresh as (q & Hq & Hql). rewrite E.
      destruct (decide (c = runner s)) as [->|Hne].
      * exists p'. split.
        -- apply list_lookup_insert_eq. exact Hr.
        -- rewrite Hl. congruence.
      * exists q. split; [|exact Hql].
        rewrite list_lookup_insert_ne by exact Hne. exact Hq.
Qed.

(** The session after [startRunner]. *)
Lemma startRunner_spec (s : Session) :
  fst (startRunner host s) = length (procs s)
  /\ procs (snd (startRunner host s)) = procs s ++ [forked host]
  /\ runner (snd (startRunner host s)) = runner s
  /\ runnerRestarting (snd (startRunner host s)) = runnerRestarting s
  /\ paused (snd (startRunner host s)) = paused s
  /\ pendingSigterms (snd (startRunner host s)) = pendingSigterms s
  /\ resolved (snd (startRunner host s)) = resolved s
  /\ terminated (snd (startRunner host s)) = terminated s
  /\ spawns (snd (startRunner host s)) = S (spawns s).
Proof.
  unfold startRunner, spawns, countEffects.
  destruct (truthyPath (tsConfigPath host)); simpl;
    rewrite ?List.filter_app, ?length_app; simpl;
    repeat split; lia.
Qed.

Lemma exitOfRestartRunner_spec (s : Session) :
  procs (exitOfRestartRunner host s) = procs s ++ [forked host]
  /\ runner (exitOfRestartRunner host s) = length (procs s)
  /\ runnerRestarting (exitOfRestartRunner host s) = false
  /\ paused (exitOfRestartRunner host s) = paused s
  /\ pendingSigterms (exitOfRestartRunner host s) = pendingSigterms s
  /\ resolved (exitOfRestartRunner host s) = resolved s
  /\ terminated (exitOfRestartRunner host s) = terminated s
  /\ spawns (exitOfRestartRunner host s) = S (spawns s).
Proof.
  unfold exitOfRestartRunner, startRunnerDo.
  pose proof (startRunner_spec s) as H.
  destruct (startRunner host s) as [pid s1]. simpl in *.
  destruct H as (-> & Hp & _ & _ & Hpa & Hq & Hre & Ht & Hs).
  repeat split; assumption.
Qed.

Lemma Inv_exitOfRestartRunner (s : Session) :
  Forall procOk (procs s) -> Inv (exitOfRestartRunner host s).
Proof.
  intros Hall.
  destruct (exitOfRestartRunner_spec s) as (Hp & Hr & Hb & _).
  unfold Inv. rewrite Hp, Hr, Hb, length_app. simpl. split; [lia|]. split.
  - apply Forall_app. split; [exact Hall|].
    constructor; [apply procOk_forked | constructor].
  - exists (forked host). split; [|reflexivity].
    apply list_lookup_middle. reflexivity.
Qed.

Lemma restartPrelude_no_fork (file : string) :
  List.filter isFork (restartPrelude host file) = [].
Proof.
  unfold restartPrelude.
  destruct (tsConfigPath host) as [p|]; [destruct (String.eqb file p)|]; reflexivity.
Qed.

(** A restart asked while one is in flight: the pause and the compilation,
    and nothing else. *)
Lemma restartRunner_coalesced (file : string) (s : Session) :
  runnerRestarting s = true ->
  restartRunner host file s
  = mkSession (procs s) (runner s) true true (watched s) (pendingSigterms s)
              (resolved s) (terminated s) (trace s ++ restartPrelude host file).
Proof.
  intros Hb. unfold restartRunner, restartPrelude.
  destruct (tsConfigPath host) as [p|]; [destruct (String.eqb file p)|];
    simpl; rewrite Hb; unfold emit; simpl; rewrite ?Hb, <- ?app_assoc;
    reflexivity.
Qed.

Lemma restartRunner_unfold (file : string) (s : Session) :
  restartRunner host file s
  = if runnerRestarting s then afterPrelude host file s
    else
      let s4 := setRunnerRestarting true (afterPrelude host file s) in
      match procs s !! runner s with
      | None => s4
      | Some p =>
          if negb (exited p)
          then stopRunner (runner s) None
                 (setProc (runner s) (withRestartListener p) s4)
          else exitOfRestartRunner host s4
      end.
Proof.
  unfold restartRunner, afterPrelude, restartPrelude, exitOfRestartRunner.
  destruct (tsConfigPath host) as [q|]; [destruct (String.eqb file q)|];
    unfold watcherPause, emit; simpl; rewrite <- ?app_assoc; simpl;
    reflexivity.
Qed.

Lemma spawns_afterPrelude (file : string) (s : Session) :
  spawns (afterPrelude host file s) = spawns s.
Proof.
  unfold spawns.
  rewrite (countEffects_trace_app isFork s (afterPrelude host file s)
             (restartPrelude host file) eq_refl).
  rewrite restartPrelude_no_fork. simpl. lia.
Qed.

Lemma Inv_setProc (c : nat) (p' : Process) (s : Session) :
  Inv s ->
  procOk p' ->
  (c = runner s -> exitListeners p' = runnerListeners (runnerRestarting s)) ->
  Inv (setProc c p' s).
Proof.
  intros (Hr & Hall & Hfresh) Hok Hl. unfold Inv. simpl.
  rewrite length_insert. split; [exact Hr|]. split.
  - apply Forall_insert; assumption.
  - destruct Hfresh as (q & Hq & Hql).
    destruct (decide (c = runner s)) as [->|Hne].
    + exists p'. split; [apply list_lookup_insert_eq; exact Hr | auto].
    + exists q. split; [|exact Hql].
      rewrite list_lookup_insert_ne by exact Hne. exact Hq.
Qed.

Lemma procOk_withRestartListener (p : Process) :
  procOk p -> procOk (withRestartListener p).
Proof.
  intros [H1 [rest H2]]. split; [exact H1|].
  exists (rest ++ [ExitOfRestartRunner]). simpl. rewrite H2. reflexivity.
Qed.

Lemma Inv_restartRunner (file : string) (s : Session) :
  Inv s -> Inv (restartRunner host file s).
Proof.
  intros HI. rewrite restartRunner_unfold.
  destruct (runnerRestarting s) eqn:Hb.
  - apply (Inv_ext s); auto.
  - cbv zeta. destruct HI as (Hr & Hall & (q & Hq & Hql)).
    rewrite Hq, Hb in *.
    destruct (exited q); simpl.
    + apply Inv_exitOfRestartRunner. exact Hall.
    + apply Inv_stopRunner. unfold Inv. simpl.
      rewrite length_insert. split; [exact Hr|]. split.
      * apply Forall_insert; [exact Hall|].
        apply procOk_withRestartListener.
        apply (Forall_lookup_1 _ _ _ _ Hall Hq).
      * exists (withRestartListener q).
        split; [apply list_lookup_insert_eq; exact Hr|].
        simpl. rewrite Hql. reflexivity.
Qed.

Lemma Inv_exitOfStartRunner (c : nat) (code : option Z) (signal : option string)
  (s : Session) :
  Inv s -> Inv (exitOfStartRunner c code signal s).
Proof.
  intros HI. unfold exitOfStartRunner.
  destruct (procs s !! c) as [p|] eqn:E; [|exact HI].
  destruct (exited p); [exact HI|].
  destruct (respawn p) eqn:Hre; simpl.
  - pose proof HI as (Hr & Hall & (q & Hq & Hql)).
    destruct (Forall_lookup_1 _ _ _ _ Hall E) as [H1 H2].
    apply Inv_setProc; [exact HI | split; simpl; auto |].
    intros ->. simpl. congruence.
  - apply (Inv_ext s); auto.
Qed.

Lemma Inv_runExitListener (c : nat) (code : option Z) (signal : option string)
  (l : ExitListener) (s : Session) :
  Inv s -> Inv (runExitListener host c code signal l s).
Proof.
  intros HI. unfold runExitListener.
  destruct (terminated s); [exact HI|].
  destruct l; [apply Inv_exitOfStartRunner; exact HI|].
  apply Inv_exitOfRestartRunner. apply HI.
Qed.

Lemma Inv_emitExit (c : nat) (code : option Z) (signal : option string)
  (s : Session) :
  Inv s -> Inv (emitExit host c code signal s).
Proof.
  intros HI. unfold emitExit.
  destruct (procs s !! c) as [p|]; [|exact HI].
  generalize (exitListeners p). intros ls. revert s HI.
  induction ls as [|l ls IH]; intros s HI; simpl; [exact HI|].
  apply IH. apply Inv_runExitListener. exact HI.
Qed.

Lemma Inv_handle (ev : Event) (s : Session) :
  Inv s -> Inv (handle host ev s).
Proof.
  intros HI. destruct ev; simpl.
  - unfold coreListener. destruct (isIgnoredByCoreListener host file);
      [exact HI | apply Inv_restartRunner; exact HI].
  - apply Inv_restartRunner; exact HI.
  - apply Inv_emitExit; exact HI.
  - destruct (hasChild child s); [|exact HI].
    unfold onRequired.
    destruct (isIgnored host required) as [ignored|rule];
      [destruct (negb ignored && depthOk host required)|];
      [|exact HI|]; apply (Inv_ext s); auto.
  - destruct (hasChild child s); [|exact HI].
    unfold onError.
    apply (Inv_ext (stopRunner (runner (emit ConsoleError s)) willTerminate
                      (emit ConsoleError s))); auto.
    apply Inv_stopRunner. apply (Inv_ext s); auto.
  - destruct (hasChild child s); [|exact HI].
    apply (Inv_ext s); auto.
  - apply Inv_stopRunner; exact HI.
  - unfold channelClosed.
    destruct (procs s !! child) as [p|] eqn:E; [|exact HI].
    pose proof HI as (Hr & Hall & (q & Hq & Hql)).
    destruct (Forall_lookup_1 _ _ _ _ Hall E) as [H1 H2].
    apply Inv_setProc; [exact HI | split; assumption |].
    intros ->. simpl. congruence.
  - unfold onTerminationSignal.
    destruct (procs s !! runner s) as [p|]; [|exact HI].
    destruct (exited p); apply (Inv_ext s); auto.
  - unfold settleSigterm.
    destruct (pendingSigterms s !! i) as [[pid k]|]; [|exact HI].
    destruct k, ok; apply (Inv_ext s); auto.
Qed.



Lemma Inv_boot : Inv (boot host).
Proof.
  unfold boot, startRunnerDo, startRunner.
  destruct (truthyPath (tsConfigPath host)); simpl;
    (split; [simpl; lia|]);
    (split; [constructor; [apply procOk_forked | constructor]|]);
    exists (forked host); split; reflexivity.
Qed.


Lemma InFlightOk_ext (s s' : Session) :
  procs s' = procs s ->
  runner s' = runner s ->
  runnerRestarting s' = runnerRestarting s ->
  InFlightOk s -> InFlightOk s'.
Proof. unfold InFlightOk. intros -> -> ->. tauto. Qed.

Lemma InFlightOk_setProc (c : nat) (p p' : Process) (s : Session) :
  procs s !! c = Some p ->
  (respawn p = true -> respawn p' = true) ->
  InFlightOk s -> InFlightOk (setProc c p' s).
Proof.
  intros Hp Hre H Hb. simpl in *. destruct (H Hb) as (q & Hq & Hqr).
  destruct (decide (c = runner s)) as [->|Hne].
  - exists p'. split.
    + apply list_lookup_insert_eq. apply lookup_lt_Some in Hq. exact Hq.
    + apply Hre. congruence.
  - exists q. split; [|exact Hqr].
    rewrite list_lookup_insert_ne by exact Hne. exact Hq.
Qed.

Lemma InFlightOk_stopRunner (c : nat) (w : option bool) (s : Session) :
  InFlightOk s -> InFlightOk (stopRunner c w s).
Proof.
  intros H.
  destruct (stopRunner_frame c w s) as (Er & Eb & _).
  destruct (stopRunner_procs c w s) as [E | (p & p' & Hp & E & Hs & Hre & _ & Hl)].
  - apply (InFlightOk_ext s); auto.
  - pose proof (InFlightOk_setProc c p p' s Hp (fun _ => Hre) H) as H'.
    unfold InFlightOk in *. rewrite Er, Eb, E. exact H'.
Qed.

Lemma InFlightOk_not_restarting (s : Session) :
  runnerRestarting s = false -> InFlightOk s.
Proof. intros Hb H. congruence. Qed.

(** A restart asked of a live runner while none is in flight. *)
Lemma restartRunner_live (file : string) (s : Session) (p : Process) :
  Inv s ->
  runnerRestarting s = false ->
  procs s !! runner s = Some p ->
  exited p = false ->
  let s1 := restartRunner host file s in
  runner s1 = runner s
  /\ runnerRestarting s1 = true
  /\ paused s1 = true
  /\ terminated s1 = terminated s
  /\ resolved s1 = resolved s
  /\ spawns s1 = spawns s
  /\ length (procs s1) = length (procs s)
  /\ exists p1, procs s1 !! runner s = Some p1
                /\ exited p1 = false
                /\ stopping p1 = true
                /\ respawn p1 = true.
Proof.
  intros HI Hb Hp Hex s1. subst s1. rewrite restartRunner_unfold, Hb.
  cbv zeta. rewrite Hp, Hex. simpl negb. cbv iota.
  set (s' := setProc (runner s) (withRestartListener p)
               (setRunnerRestarting true (afterPrelude host file s))).
  destruct (stopRunner_frame (runner s) None s')
    as (Er & Eb & Epa & _ & Ere & Et & El & Esp).
  rewrite Er, Eb, Epa, Et, Ere, El, Esp.
  assert (procs s' !! runner s = Some (withRestartListener p)) as Hp'.
  { subst s'. simpl. apply list_lookup_insert_eq.
    apply lookup_lt_Some in Hp. exact Hp. }
  repeat (split; [subst s'; simpl; rewrite ?length_insert; try reflexivity;
                  apply spawns_afterPrelude |]).
  destruct (stopping p) eqn:Hs.
  - rewrite (stopRunner_noop (runner s) None s' (withRestartListener p) Hp').
    2:{ simpl. rewrite Hs. apply orb_true_r. }
    exists (withRestartListener p). split; [exact Hp'|]. simpl.
    destruct HI as (_ & Hall & _).
    destruct (Forall_lookup_1 _ _ _ _ Hall Hp) as [H1 _]. auto.
  - destruct (stopRunner_marks (runner s) None s' (withRestartListener p) Hp')
      as (p1 & Hp1 & Hs1 & Hr1 & He1 & _); [exact Hex | exact Hs |].
    exists p1. auto.
Qed.

Lemma InFlightOk_restartRunner (file : string) (s : Session) :
  Inv s -> InFlightOk s -> InFlightOk (restartRunner host file s).
Proof.
  intros HI HF.
  destruct (runnerRestarting s) eqn:Hb.
  - rewrite restartRunner_unfold, Hb. apply (InFlightOk_ext s); auto.
  - pose proof HI as (_ & _ & (q & Hq & _)).
    destruct (exited q) eqn:Hex.
    + rewrite restartRunner_unfold, Hb. cbv zeta. rewrite Hq, Hex. simpl.
      apply InFlightOk_not_restarting.
      apply (exitOfRestartRunner_spec
               (setRunnerRestarting true (afterPrelude host file s))).
    + destruct (restartRunner_live file s q HI Hb Hq Hex)
        as (Er & _ & _ & _ & _ & _ & _ & (p1 & Hp1 & _ & _ & Hr1)).
      intros _. exists p1. rewrite Er. auto.
Qed.

Lemma InFlightOk_exitOfStartRunner (c : nat) (code : option Z)
  (signal : option string) (s : Session) :
  InFlightOk s -> InFlightOk (exitOfStartRunner c code signal s).
Proof.
  intros HF. unfold exitOfStartRunner.
  destruct (procs s !! c) as [p|] eqn:E; [|exact HF].
  destruct (exited p); [exact HF|].
  destruct (respawn p) eqn:Hre; simpl.
  - apply (InFlightOk_setProc c p); auto.
  - apply (InFlightOk_ext s); auto.
Qed.

Lemma Good_runExitListener (c : nat) (code : option Z) (signal : option string)
  (l : ExitListener) (s : Session) :
  Good s -> Good (runExitListener host c code signal l s).
Proof.
  intros [HI HF]. split; [apply Inv_runExitListener; exact HI|].
  unfold runExitListener. destruct (terminated s); [exact HF|].
  destruct l; [apply InFlightOk_exitOfStartRunner; exact HF|].
  apply InFlightOk_not_restarting. apply (exitOfRestartRunner_spec s).
Qed.

Lemma Good_emitExit (c : nat) (code : option Z) (signal : option string)
  (s : Session) :
  Good s -> Good (emitExit host c code signal s).
Proof.
  intros HG. unfold emitExit.
  destruct (procs s !! c) as [p|]; [|exact HG].
  generalize (exitListeners p). intros ls. revert s HG.
  induction ls as [|l ls IH]; intros s HG; simpl; [exact HG|].
  apply IH. apply Good_runExitListener. exact HG.
Qed.

Lemma Good_handle (ev : Event) (s : Session) :
  Good s -> Good (handle host ev s).
Proof.
  intros HG. destruct ev;
    try (split; [apply Inv_handle; apply HG|]); destruct HG as [HI HF]; simpl.
  - unfold coreListener. destruct (isIgnoredByCoreListener host file);
      [exact HF | apply InFlightOk_restartRunner; assumption].
  - apply InFlightOk_restartRunner; assumption.
  - apply Good_emitExit. split; assumption.
  - destruct (hasChild child s); [|exact HF].
    unfold onRequired.
    destruct (isIgnored host required) as [ignored|rule];
      [destruct (negb ignored && depthOk host required)|];
      [|exact HF|]; apply (InFlightOk_ext s); auto.
  - destruct (hasChild child s); [|exact HF].
    unfold onError.
    apply (InFlightOk_ext
             (stopRunner (runner (emit ConsoleError s)) willTerminate
                (emit ConsoleError s))); auto.
    apply InFlightOk_stopRunner. apply (InFlightOk_ext s); auto.
  - destruct (hasChild child s); [|exact HF].
    apply (InFlightOk_ext s); auto.
  - apply InFlightOk_stopRunner; exact HF.
  - unfold channelClosed.
    destruct (procs s !! child) as [p|] eqn:E; [|exact HF].
    apply (InFlightOk_setProc child p); auto.
  - unfold onTerminationSignal.
    destruct (procs s !! runner s) as [p|]; [|exact HF].
    destruct (exited p); apply (InFlightOk_ext s); auto.
  - unfold settleSigterm.
    destruct (pendingSigterms s !! i) as [[pid k]|]; [|exact HF].
    destruct k, ok; apply (InFlightOk_ext s); auto.
Qed.

Lemma Good_run (evs : list Event) (s : Session) :
  Good s -> Good (run host evs s).
Proof.
  revert s. induction evs as [|ev evs IH]; intros s HG; simpl; [exact HG|].
  apply IH. unfold step. destruct (terminated s); [exact HG|].
  apply Good_handle. exact HG.
Qed.

Lemma Good_reachable (s : Session) : reachable host s -> Good s.
Proof.
  intros [evs ->]. apply Good_run. split; [apply Inv_boot|].
  apply InFlightOk_not_restarting.
  unfold boot, startRunnerDo, startRunner.
  destruct (truthyPath (tsConfigPath host)); reflexivity.
Qed.

(** *** A burst of restarts, and the exit that ends it *)

Lemma filter_pauseOrCompile (f : Effect -> bool) (l : list Effect) :
  (forall e, isPauseOrCompile e = true -> f e = false) ->
  forallb isPauseOrCompile l = true ->
  List.filter f l = [].
Proof.
  intros Hf. induction l as [|e l IH]; simpl; [reflexivity|].
  intros H. apply andb_true_iff in H as [He Hl].
  rewrite (Hf e He). apply IH. exact Hl.
Qed.

Lemma restartPrelude_pauseOrCompile (file : string) :
  forallb isPauseOrCompile (restartPrelude host file) = true.
Proof.
  unfold restartPrelude.
  destruct (tsConfigPath host) as [q|]; [destruct (String.eqb file q)|];
    reflexivity.
Qed.

(** Restarts asked while one is in flight change nothing but the pause
    flag and the trace, to which they add pauses and compilations. *)
Lemma run_restarts_in_flight (files : list string) (s : Session) :
  runnerRestarting s = true ->
  let s' := run host (map Restart files) s in
  procs s' = procs s
  /\ runner s' = runner s
  /\ runnerRestarting s' = true
  /\ watched s' = watched s
  /\ pendingSigterms s' = pendingSigterms s
  /\ resolved s' = resolved s
  /\ terminated s' = terminated s
  /\ (paused s = true -> paused s' = true)
  /\ exists l, trace s' = trace s ++ l /\ forallb isPauseOrCompile l = true.
Proof.
  revert s. induction files as [|file files IH]; intros s Hb.
  - simpl. repeat split; auto. exists []. rewrite app_nil_r. auto.
  - cbv zeta.
    change (run host (map Restart (file :: files)) s)
      with (run host (map Restart files) (step host (Restart file) s)).
    destruct (terminated s) eqn:Ht.
    + assert (step host (Restart file) s = s) as ->
        by (unfold step; rewrite Ht; reflexivity).
      pose proof (IH s Hb) as H. cbv zeta in H. rewrite Ht in H. exact H.
    + assert (step host (Restart file) s = restartRunner host file s) as ->
        by (unfold step; rewrite Ht; reflexivity).
      rewrite (restartRunner_coalesced file s Hb).
      set (s1 := mkSession _ _ _ _ _ _ _ _ _).
      destruct (IH s1 eq_refl)
        as (E1 & E2 & E3 & E4 & E5 & E6 & E7 & E8 & (l & El & Hl)).
      subst s1. simpl in *.
      repeat (split; [congruence || auto |]).
      exists (restartPrelude host file ++ l). split.
      * rewrite El, app_assoc. reflexivity.
      * rewrite forallb_app, restartPrelude_pauseOrCompile, Hl. reflexivity.
Qed.

Lemma countEffects_in_flight (f : Effect -> bool) (s s' : Session) :
  (forall e, isPauseOrCompile e = true -> f e = false) ->
  (exists l, trace s' = trace s ++ l /\ forallb isPauseOrCompile l = true) ->
  countEffects f s' = countEffects f s.
Proof.
  intros Hf (l & El & Hl).
  rewrite (countEffects_trace_app f s s' l El).
  rewrite (filter_pauseOrCompile f l Hf Hl). simpl. lia.
Qed.

(** The exit of a live runner that is to be respawned and carries the
    listener of [restartRunner]: it is marked exited, and one new runner
    is started. *)
Lemma emitExit_respawns (c : nat) (code : option Z) (signal : option string)
  (s : Session) (p : Process) :
  terminated s = None ->
  procs s !! c = Some p ->
  exited p = false ->
  respawn p = true ->
  exitListeners p = [ExitOfStartRunner; ExitOfRestartRunner] ->
  emitExit host c code signal s
  = exitOfRestartRunner host
      (setProc c (mkProcess true (stopping p) (respawn p) (connected p)
                            (exitListeners p)) s).
Proof.
  intros Ht Hp Hex Hre Hl. unfold emitExit. rewrite Hp, Hl. simpl.
  unfold runExitListener at 2. rewrite Ht.
  unfold exitOfStartRunner. rewrite Hp, Hex, Hre. simpl.
  unfold runExitListener. simpl. rewrite Ht, Hl. reflexivity.
Qed.

Lemma exit_in_flight (code : option Z) (signal : option string)
  (s : Session) (p : Process) :
  Good s ->
  terminated s = None ->
  runnerRestarting s = true ->
  procs s !! runner s = Some p ->
  exited p = false ->
  let s' := step host (ChildExit (runner s) code signal) s in
  spawns s' = S (spawns s)
  /\ runnerRestarting s' = false
  /\ runner s' = length (procs s)
  /\ length (procs s') = S (length (procs s))
  /\ terminated s' = None
  /\ paused s' = paused s
  /\ resolved s' = resolved s
  /\ exists p', procs s' !! runner s = Some p' /\ exited p' = true.
Proof.
  intros [HI HF] Ht Hb Hp Hex s'. subst s'.
  destruct HI as (Hr & _ & (q & Hq & Hql)).
  destruct (HF Hb) as (q' & Hq' & Hre).
  rewrite Hp in Hq, Hq'. injection Hq as <-. injection Hq' as <-.
  rewrite Hb in Hql.
  unfold step. rewrite Ht. simpl handle.
  rewrite (emitExit_respawns _ code signal s p Ht Hp Hex Hre Hql).
  set (s1 := setProc _ _ s).
  destruct (exitOfRestartRunner_spec s1)
    as (E1 & E2 & E3 & E4 & E5 & E6 & E7 & E8).
  rewrite E8, E3, E2, E1, E7, E4, E6, length_app. subst s1. simpl.
  rewrite length_insert.
  repeat (split; [reflexivity || lia || assumption |]).
  eexists. split.
  - rewrite lookup_app_l by (rewrite length_insert; exact Hr).
    apply list_lookup_insert_eq. exact Hr.
  - reflexivity.
Qed.

End Invariant.

(** C1.  In a session with a restart in flight, any number of further
    calls of [restartRunner] leave the store of processes (flags and
    listeners), the runner, the queue of signals and the flag as they
    were, and add no fork, no termination signal and no disconnect to the
    trace.  When the runner then exits, exactly one new runner is forked
    for the whole burst, and the flag is cleared. *)
Theorem restart_coalescing (host : Host) (s : Session) (files : list string) :
  runnerRestarting s = true ->
  let s' := run host (map Restart files) s in
  (procs s' = procs s
   /\ runner s' = runner s
   /\ runnerRestarting s' = true
   /\ pendingSigterms s' = pendingSigterms s
   /\ spawns s' = spawns s
   /\ countEffects isSigterm s' = countEffects isSigterm s
   /\ countEffects isDisconnect s' = countEffects isDisconnect s)
  /\ (forall p code signal,
        reachable host s ->
        terminated s = None ->
        procs s !! runner s = Some p ->
        exited p = false ->
        let s'' := step host (ChildExit (runner s) code signal) s' in
        spawns s'' = S (spawns s)
        /\ runnerRestarting s'' = false
        /\ runner s'' = length (procs s)
        /\ terminated s'' = None).
Proof.
  intros Hb s'.
  destruct (run_restarts_in_flight host files s Hb)
    as (E1 & E2 & E3 & E4 & E5 & E6 & E7 & E8 & Hl).
  fold s' in E1, E2, E3, E4, E5, E6, E7, E8, Hl.
  assert (forall f, (forall e, isPauseOrCompile e = true -> f e = false) ->
                    countEffects f s' = countEffects f s) as Hc.
  { intros f Hf. apply countEffects_in_flight; assumption. }
  split.
  - repeat (split; [assumption|]).
    split; [|split]; apply Hc; intros [] He; try reflexivity; discriminate He.
  - intros p code signal Hreach Ht Hp Hex s''. subst s''.
    assert (Good s') as HG.
    { subst s'. apply Good_run. apply (Good_reachable host). exact Hreach. }
    rewrite <- E2.
    destruct (exit_in_flight host code signal s' p HG)
      as (F1 & F2 & F3 & _ & F5 & _); try congruence.
    rewrite F1, F2, F3, F5, E1. unfold spawns.
    rewrite (Hc isFork); [auto|].
    intros [] He; try reflexivity; discriminate He.
Qed.

(** A restart is in flight on the sample host; three more changes arrive,
    and then the runner exits on the signal: two forks in all, the first
    runner and its one replacement. *)
Lemma restart_coalescing_witness :
  let s := step sampleHost (Restart "a.ts") (boot sampleHost) in
  let s' := run sampleHost (map Restart ["b.ts"; "tsconfig.json"; "c.ts"]) s in
  let s'' := step sampleHost (ChildExit 0 None (Some "SIGTERM")) s' in
  procs s' = procs s
  /\ spawns s'' = 2%nat
  /\ runnerRestarting s'' = false.
Proof.
  pose proof (restart_coalescing sampleHost
                (step sampleHost (Restart "a.ts") (boot sampleHost))
                ["b.ts"; "tsconfig.json"; "c.ts"]) as H.
  destruct H as [H1 H2]; [vm_compute; reflexivity|].
  split; [apply H1|].
  destruct (H2 (mkProcess false true true (Some false)
                  [ExitOfStartRunner; ExitOfRestartRunner])
               None (Some "SIGTERM")) as (F1 & F2 & _).
  - exists [Restart "a.ts"]. vm_compute. reflexivity.
  - vm_compute. reflexivity.
  - vm_compute. reflexivity.
  - reflexivity.
  - split; [exact F1 | exact F2].
Defined.

(** *** The exit of a child nobody asked to stop *)

Lemma step_terminated (host : Host) (ev : Event) (s : Session) (c : Z) :
  terminated s = Some c -> step host ev s = s.
Proof. intros Ht. unfold step. rewrite Ht. reflexivity. Qed.

Lemma run_terminated (host : Host) (evs : list Event) (s : Session) (c : Z) :
  terminated s = Some c -> run host evs s = s.
Proof.
  intros Ht. induction evs as [|ev evs IH]; [reflexivity|].
  change (run host (ev :: evs) s) with (run host evs (step host ev s)).
  rewrite (step_terminated host ev s c Ht). exact IH.
Qed.

Lemma runExitListener_terminated (host : Host) (child : nat) (code : option Z)
  (signal : option string) (l : ExitListener) (s : Session) (c : Z) :
  terminated s = Some c -> runExitListener host child code signal l s = s.
Proof. intros Ht. unfold runExitListener. rewrite Ht. reflexivity. Qed.

Lemma listeners_terminated (host : Host) (child : nat) (code : option Z)
  (signal : option string) (ls : list ExitListener) (s : Session) (c : Z) :
  terminated s = Some c ->
  fold_left (fun acc l => runExitListener host child code signal l acc) ls s = s.
Proof.
  intros Ht. induction ls as [|l ls IH]; [reflexivity|].
  simpl. rewrite (runExitListener_terminated host child code signal l s c Ht).
  exact IH.
Qed.

(** C2.  In a reachable session, a child that has not exited and whose
    [respawn] flag is false (so no stop was asked of it) exits with a code
    that is not null: the session ends by [process.exit] with that code,
    no runner is forked, the store and the runner are as they were, and no
    later event changes anything.  The current runner is one such child. *)
Theorem unexpected_exit_is_fatal
  (host : Host) (s : Session) (child : nat) (p : Process)
  (code : Z) (signal : option string) :
  reachable host s ->
  terminated s = None ->
  procs s !! child = Some p ->
  exited p = false ->
  respawn p = false ->
  let s' := step host (ChildExit child (Some code) signal) s in
  stopping p = false
  /\ terminated s' = Some code
  /\ trace s' = trace s ++ [ProcessExit code]
  /\ spawns s' = spawns s
  /\ procs s' = procs s
  /\ runner s' = runner s
  /\ forall evs, run host evs s' = s'.
Proof.
  intros Hreach Ht Hp Hex Hre s'.
  destruct (Good_reachable host s Hreach) as [(_ & Hall & _) _].
  destruct (Forall_lookup_1 _ _ _ _ Hall Hp) as [Hstop [rest Hl]].
  assert (s' = setTerminated (Some code) (emit (ProcessExit code) s)) as ->.
  { subst s'. unfold step. rewrite Ht. simpl handle.
    unfold emitExit. rewrite Hp, Hl. simpl fold_left.
    assert (runExitListener host child (Some code) signal ExitOfStartRunner s
            = setTerminated (Some code) (emit (ProcessExit code) s)) as ->.
    { unfold runExitListener. rewrite Ht.
      unfold exitOfStartRunner. rewrite Hp, Hex, Hre. reflexivity. }
    apply (listeners_terminated host child (Some code) signal rest _ code).
    reflexivity. }
  split.
  { destruct (stopping p); [|reflexivity]. rewrite Hstop in Hre; congruence. }
  simpl. repeat (split; [reflexivity|]). split.
  - unfold spawns, countEffects. simpl.
    rewrite List.filter_app, length_app. simpl. lia.
  - repeat (split; [reflexivity|]).
    intros evs. apply (run_terminated host evs _ code). reflexivity.
Qed.

(** The first runner of the sample host, which does not respawn, exits
    with code 1: the session ends with code 1, and nothing is forked. *)
Lemma unexpected_exit_is_fatal_witness :
  let s := boot sampleHost in
  let s' := step sampleHost (ChildExit 0 (Some 1) None) s in
  stopping (forked sampleHost) = false
  /\ terminated s' = Some 1
  /\ trace s' = trace s ++ [ProcessExit 1]
  /\ spawns s' = spawns s
  /\ procs s' = procs s
  /\ runner s' = runner s
  /\ forall evs, run sampleHost evs s' = s'.
Proof.
  apply (unexpected_exit_is_fatal sampleHost (boot sampleHost) 0
           (forked sampleHost) 1 None);
    [exists []; vm_compute; reflexivity | vm_compute; reflexivity ..].
Defined.

(** *** Pause and resume *)

(** C8.  A reachable session with the watcher unpaused, no restart in
    flight and a live runner gets a change: [restartRunner] pauses the
    watcher and stops the runner.  Further changes during the restart keep
    it paused.  The exit of the runner forks its replacement, the watcher
    still paused, and the readiness message of the new runner resumes it:
    the watcher ends unpaused, as it began. *)
Theorem pause_resume_symmetry
  (host : Host) (s : Session) (p : Process) (file : string)
  (files : list string) (code : option Z) (signal : option string) :
  reachable host s ->
  terminated s = None ->
  paused s = false ->
  runnerRestarting s = false ->
  procs s !! runner s = Some p ->
  exited p = false ->
  let s1 := step host (Restart file) s in
  let s2 := run host (map Restart files) s1 in
  let s3 := step host (ChildExit (runner s) code signal) s2 in
  let s4 := step host (ServerReadyMsg (runner s3)) s3 in
  paused s1 = true
  /\ (exists p1, procs s1 !! runner s = Some p1 /\ stopping p1 = true)
  /\ paused s2 = true
  /\ paused s3 = true
  /\ spawns s3 = S (spawns s)
  /\ runner s3 = length (procs s)
  /\ terminated s4 = None
  /\ paused s4 = paused s.
Proof.
  intros Hreach Ht Hpa Hb Hp Hex s1 s2 s3 s4.
  pose proof (Good_reachable host s Hreach) as HG.
  assert (s1 = restartRunner host file s) as E1
    by (subst s1; unfold step; rewrite Ht; reflexivity).
  destruct (restartRunner_live host file s p (proj1 HG) Hb Hp Hex)
    as (A1 & A2 & A3 & A4 & A5 & A6 & A7 & (p1 & Hp1 & Hex1 & Hs1 & Hr1)).
  rewrite <- E1 in A1, A2, A3, A4, A5, A6, A7, Hp1.
  destruct (run_restarts_in_flight host files s1 A2)
    as (B1 & B2 & B3 & _ & _ & B6 & B7 & B8 & Hl).
  fold s2 in B1, B2, B3, B6, B7, B8, Hl.
  assert (Good s2) as HG2.
  { subst s2 s1. apply Good_run. unfold step. rewrite Ht.
    apply Good_handle. exact HG. }
  assert (spawns s2 = spawns s1) as Hsp.
  { apply countEffects_in_flight; [|exact Hl].
    intros [] He; try reflexivity; discriminate He. }
  destruct (exit_in_flight host code signal s2 p1 HG2)
    as (C1 & C2 & C3 & C4 & C5 & C6 & _); try congruence.
  rewrite B2, A1 in C1, C2, C3, C4, C5, C6. fold s3 in C1, C2, C3, C4, C5, C6.
  assert (s4 = onServerReady s3) as E4.
  { subst s4. unfold step. rewrite C5. simpl. unfold hasChild.
    rewrite bool_decide_eq_true_2; [reflexivity|]. rewrite C3, C4. lia. }
  split; [exact A3|]. split; [exists p1; auto|].
  split; [auto|]. split; [rewrite C6; auto|].
  split; [rewrite C1, Hsp, A6; reflexivity|].
  split; [rewrite C3, B1, A7; reflexivity|].
  rewrite E4. simpl. split; [exact C5 | symmetry; exact Hpa].
Qed.

(** Two changes on the sample host, the exit of the stopped runner, and
    the readiness of its replacement. *)
Lemma pause_resume_symmetry_witness :
  let s := boot sampleHost in
  let s1 := step sampleHost (Restart "a.ts") s in
  let s2 := run sampleHost (map Restart ["b.ts"]) s1 in
  let s3 := step sampleHost (ChildExit (runner s) None (Some "SIGTERM")) s2 in
  let s4 := step sampleHost (ServerReadyMsg (runner s3)) s3 in
  paused s1 = true
  /\ (exists p1, procs s1 !! runner s = Some p1 /\ stopping p1 = true)
  /\ paused s2 = true
  /\ paused s3 = true
  /\ spawns s3 = S (spawns s)
  /\ runner s3 = length (procs s)
  /\ terminated s4 = None
  /\ paused s4 = paused s.
Proof.
  apply (pause_resume_symmetry sampleHost (boot sampleHost)
           (forked sampleHost) "a.ts" ["b.ts"] None (Some "SIGTERM"));
    [exists []; vm_compute; reflexivity | vm_compute; reflexivity ..].
Defined.

(** *** The [exited] flag *)
Section Exited.

Variable host : Host.












(** The exit of a child that has exited already touches no object of the
    store: at most new runners are added after them. *)
Lemma emitExit_exited (child : nat) (code : option Z) (signal : option string)
  (s : Session) (p : Process) :
  procs s !! child = Some p ->
  exited p = true ->
  exists l, procs (emitExit host child code signal s) = procs s ++ l.
Proof.
  intros Hp Hex. unfold emitExit. rewrite Hp.
  assert (forall ls acc,
             (exists l, procs acc = procs s ++ l) ->
             exists l,
               procs (fold_left
                        (fun a x => runExitListener host child code signal x a)
                        ls acc)
               = procs s ++ l) as H.
  { induction ls as [|x ls IH]; intros acc Hacc; simpl; [exact Hacc|].
    apply IH. destruct Hacc as [l Hl].
    unfold runExitListener. destruct (terminated acc); [eauto|].
    destruct x.
    - unfold exitOfStartRunner.
      assert (procs acc !! child = Some p) as ->
        by (rewrite Hl; apply lookup_app_l_Some; exact Hp).
      rewrite Hex. eauto.
    - exists (l ++ [forked host]).
      rewrite (proj1 (exitOfRestartRunner_spec host acc)), Hl, app_assoc.
      reflexivity. }
  apply H. exists []. rewrite app_nil_r. reflexivity.
Qed.



End Exited.




(** *** The relay of termination signals *)
Section Shutdown.

Variable host : Host.

Lemma resolved_restartRunner (file : string) (s : Session) :
  resolved (restartRunner host file s) = resolved s.
Proof.
  rewrite restartRunner_unfold.
  destruct (runnerRestarting s); [reflexivity|]. cbv zeta.
  destruct (procs s !! runner s) as [p|]; [|reflexivity].
  destruct (exited p); simpl.
  - apply (exitOfRestartRunner_spec host
             (setRunnerRestarting true (afterPrelude host file s))).
  - apply (stopRunner_frame (runner s) None
             (setProc (runner s) (withRestartListener p)
                (setRunnerRestarting true (afterPrelude host file s)))).
Qed.

Lemma resolved_emitExit (child : nat) (code : option Z)
  (signal : option string) (s : Session) :
  resolved (emitExit host child code signal s) = resolved s.
Proof.
  unfold emitExit. destruct (procs s !! child) as [p|]; [|reflexivity].
  generalize (exitListeners p). intros ls. revert s.
  induction ls as [|l ls IH]; intros s; simpl; [reflexivity|].
  rewrite IH. unfold runExitListener.
  destruct (terminated s); [reflexivity|]. destruct l.
  - unfold exitOfStartRunner. destruct (procs s !! child) as [q|]; [|reflexivity].
    destruct (exited q); [reflexivity|]. destruct (respawn q); reflexivity.
  - apply (exitOfRestartRunner_spec host s).
Qed.

(** The promise of the session is resolved in two places only: the
    handler of a termination signal, when the runner has exited, and the
    continuation of the signal that handler sent. *)
Lemma resolved_only_after (ev : Event) (s : Session) :
  resolved s = false ->
  resolved (step host ev s) = true ->
  (exists sig p, ev = GotSignal sig
                 /\ procs s !! runner s = Some p /\ exited p = true)
  \/ (exists i ok pid, ev = SigtermSettled i ok
                       /\ pendingSigterms s !! i = Some (pid, ThenResolve)).
Proof.
  intros Hr. unfold step. destruct (terminated s); [congruence|].
  destruct ev; simpl.
  - unfold coreListener. destruct (isIgnoredByCoreListener host file);
      [congruence | rewrite resolved_restartRunner; congruence].
  - rewrite resolved_restartRunner; congruence.
  - rewrite resolved_emitExit; congruence.
  - destruct (hasChild child s); [|congruence]. unfold onRequired.
    destruct (isIgnored host required) as [ignored|rule];
      [destruct (negb ignored && depthOk host required)|];
      simpl; congruence.
  - destruct (hasChild child s); [|congruence]. unfold onError. simpl.
    destruct (stopRunner_frame (runner s) willTerminate (emit ConsoleError s))
      as (_ & _ & _ & _ & E & _).
    simpl in E. rewrite E. congruence.
  - destruct (hasChild child s); simpl; congruence.
  - destruct (stopRunner_frame child willTerminate s)
      as (_ & _ & _ & _ & E & _).
    rewrite E. congruence.
  - unfold channelClosed. destruct (procs s !! child); simpl; congruence.
  - unfold onTerminationSignal.
    destruct (procs s !! runner s) as [p|] eqn:Hp; [|congruence].
    destruct (exited p) eqn:Hex; simpl; [|congruence].
    intros _. left. eauto.
  - unfold settleSigterm.
    destruct (pendingSigterms s !! i) as [[pid k]|] eqn:Hi; [|congruence].
    destruct k; [destruct ok; simpl; congruence|].
    intros _. right. eauto.
Qed.

End Shutdown.

(** C9.  On [SIGTERM] or [SIGINT], with a runner that has not exited,
    the handler sends the termination signal to the runner and resolves
    nothing itself: the resolution is chained on the promise of the
    delivery.  When that promise settles the session is resolved; a
    failure adds a warning and nothing else.  With a runner that has
    exited, the handler resolves the session at once and sends nothing.
    And a session gets resolved by no other event than these two. *)
Theorem shutdown_sequencing
  (host : Host) (s : Session) (sig : TermSignal) (p : Process) :
  terminated s = None ->
  procs s !! runner s = Some p ->
  let s' := step host (GotSignal sig) s in
  (exited p = false ->
   trace s' = trace s ++ [SendSigterm (runner s)]
   /\ pendingSigterms s' = pendingSigterms s ++ [(runner s, ThenResolve)]
   /\ resolved s' = resolved s
   /\ procs s' = procs s
   /\ forall ok,
        let s'' := step host (SigtermSettled (length (pendingSigterms s)) ok) s' in
        resolved s'' = true
        /\ trace s'' = trace s' ++ (if ok then [] else [WarnSigtermFailed])
        /\ pendingSigterms s'' = pendingSigterms s
        /\ terminated s'' = None
        /\ procs s'' = procs s)
  /\ (exited p = true -> s' = setResolved true s)
  /\ (forall ev t,
        resolved t = false ->
        resolved (step host ev t) = true ->
        (exists sig' q, ev = GotSignal sig'
                        /\ procs t !! runner t = Some q /\ exited q = true)
        \/ (exists i ok pid, ev = SigtermSettled i ok
                             /\ pendingSigterms t !! i = Some (pid, ThenResolve))).
Proof.
  intros Ht Hp s'.
  assert (s' = if exited p then setResolved true s
               else sendSigterm (runner s) ThenResolve s) as E.
  { subst s'. unfold step. rewrite Ht. simpl handle.
    unfold onTerminationSignal. rewrite Hp. reflexivity. }
  clearbody s'. subst s'.
  split; [|split].
  - intros Hex. rewrite Hex. simpl.
    do 4 (split; [reflexivity|]).
    intros ok. unfold step. simpl. rewrite Ht.
    unfold settleSigterm. simpl.
    rewrite list_lookup_middle by reflexivity.
    assert (delete (length (pendingSigterms s))
              (pendingSigterms s ++ [(runner s, ThenResolve)])
            = pendingSigterms s) as Hd.
    { clear. induction (pendingSigterms s) as [|x l IH]; simpl;
        [reflexivity | f_equal; exact IH]. }
    destruct ok; simpl; rewrite Hd, ?app_nil_r; repeat split; auto.
  - intros Hex. rewrite Hex. reflexivity.
  - intros ev t. apply resolved_only_after.
Qed.

(** The sample host gets [SIGINT] while its first runner is alive, and
    the delivery of the signal fails. *)
Lemma shutdown_sequencing_witness :
  let s := boot sampleHost in
  let s' := step sampleHost (GotSignal SIGINT) s in
  let s'' := step sampleHost (SigtermSettled 0 false) s' in
  trace s' = trace s ++ [SendSigterm 0]
  /\ resolved s' = false
  /\ resolved s'' = true
  /\ trace s'' = trace s' ++ [WarnSigtermFailed].
Proof.
  destruct (shutdown_sequencing sampleHost (boot sampleHost) SIGINT
              (forked sampleHost)) as (H & _ & _);
    [reflexivity | reflexivity |].
  destruct (H eq_refl) as (H1 & _ & H3 & _ & H5).
  destruct (H5 false) as (H6 & H7 & _).
  split; [exact H1|]. split; [exact H3|]. split; [exact H6 | exact H7].
Defined.

(** *** The [required] message *)
Section Required.

Variable host : Host.

Lemma isPrefixOf_spec (value prefix : string) :
  isPrefixOf value prefix = true <-> exists rest, value = prefix +:+ rest.
Proof.
  unfold isPrefixOf. rewrite Z.eqb_eq, indexOf_zero. split.
  - apply startsWith_inv.
  - intros [rest ->]. apply startsWith_app.
Qed.

Lemma someRegExpMatch_spec (value : string) (rules : list string) :
  match someRegExpMatch host value rules with
  | Normal true => exists r, In r rules /\ regExpTest host r value = Some true
  | Normal false => forall r, In r rules -> regExpTest host r value = Some false
  | Throws rule => In rule rules /\ regExpTest host rule value = None
  end.
Proof.
  induction rules as [|r rules IH]; simpl; [intros r []|].
  unfold isRegExpMatch.
  destruct (regExpTest host r value) as [[|]|] eqn:E.
  - exists r. split; [left; reflexivity | exact E].
  - destruct (someRegExpMatch host value rules) as [[|]|rule].
    + destruct IH as (r' & Hin & H). exists r'. split; [right|]; assumption.
    + intros r' [<-|Hin]; [exact E | apply IH; exact Hin].
    + destruct IH as [Hin H]. split; [right|]; assumption.
  - split; [left; reflexivity | exact E].
Qed.

Lemma prefix_ignoredBy (required : string) :
  existsb (isPrefixOf required) (cfg_ignore (cfg host)) = true ->
  ignoredBy host required.
Proof.
  intros H. apply List.existsb_exists in H as (r & Hr & H).
  exists r. split; [exact Hr|]. left. apply isPrefixOf_spec. exact H.
Qed.

Lemma no_prefix (required : string) :
  existsb (isPrefixOf required) (cfg_ignore (cfg host)) = false ->
  forall r rest, In r (cfg_ignore (cfg host)) -> required <> r +:+ rest.
Proof.
  intros H r rest Hr E.
  assert (existsb (isPrefixOf required) (cfg_ignore (cfg host)) = true) as H'.
  { apply List.existsb_exists. exists r. split; [exact Hr|].
    apply isPrefixOf_spec. exists rest. exact E. }
  congruence.
Qed.

(** When [isIgnored] completes, its value says whether a rule matches. *)
Lemma isIgnored_normal (required : string) (b : bool) :
  isIgnored host required = Normal b -> (b = true <-> ignoredBy host required).
Proof.
  unfold isIgnored.
  destruct (existsb (isPrefixOf required) (cfg_ignore (cfg host))) eqn:Hp.
  - intros [= <-]. split; [intros _; apply prefix_ignoredBy; exact Hp | reflexivity].
  - pose proof (someRegExpMatch_spec required (cfg_ignore (cfg host))) as H.
    intros E. rewrite E in H. destruct b.
    + split; [|reflexivity]. intros _. destruct H as (r & Hr & H).
      exists r. split; [exact Hr | right; exact H].
    + split; [discriminate|]. intros (r & Hr & [[rest Hrest]|Hm]).
      * destruct (no_prefix required Hp r rest Hr Hrest).
      * rewrite (H r Hr) in Hm. discriminate Hm.
Qed.



Lemma isIgnored_prefix (required r rest : string) :
  In r (cfg_ignore (cfg host)) ->
  required = r +:+ rest ->
  isIgnored host required = Normal true.
Proof.
  intros Hr E. unfold isIgnored.
  assert (existsb (isPrefixOf required) (cfg_ignore (cfg host)) = true) as ->;
    [|reflexivity].
  apply List.existsb_exists. exists r. split; [exact Hr|].
  apply isPrefixOf_spec. exists rest. exact E.
Qed.

Lemma depthOk_spec (required : string) :
  depthOk host required = true <-> withinDepth host required.
Proof.
  unfold depthOk, withinDepth.
  rewrite orb_true_iff, Z.eqb_eq, Z.leb_le. reflexivity.
Qed.


End Required.




(** *** The nesting level *)

(** C10.  [getLevel] answers the number of occurrences of [node_modules]
    in [getPrefix] of the path, which is the path up to the end of its
    last [node_modules] and is empty when the path has none; so the
    level of a path without [node_modules] is 0, and such a path is
    within every bound that is not negative. *)
Theorem getLevel_counts_node_modules (host : Host) (mod_ : string) :
  getLevel mod_ = Z.of_nat (occurrences node_modules (getPrefix mod_))
  /\ (forall i,
        startsWith node_modules (dropS i mod_) = true ->
        (forall j, (i < j)%nat -> startsWith node_modules (dropS j mod_) = false) ->
        getPrefix mod_ = String.substring 0 (i + 12) mod_)
  /\ (occurrences node_modules mod_ = O ->
      getPrefix mod_ = EmptyString /\ getLevel mod_ = 0)
  /\ (occurrences node_modules mod_ = O ->
      0 <= cfg_deps (cfg host) ->
      depthOk host mod_ = true).
Proof.
  split; [apply getLevel_occurrences_prefix|].
  split; [intros i; apply getPrefix_last|].
  split.
  - intros H. split; [apply getPrefix_none; exact H|].
    rewrite getLevel_occurrences, H. reflexivity.
  - intros H Hd. unfold depthOk.
    rewrite getLevel_occurrences, H. simpl.
    apply orb_true_iff. right. apply Z.leb_le. exact Hd.
Qed.

(** A source file of the project is at level 0 and passes the filter of
    the sample host. *)
Lemma getLevel_counts_node_modules_witness :
  getLevel "/proj/src/app.ts" = 0
  /\ depthOk sampleHost "/proj/src/app.ts" = true.
Proof.
  destruct (getLevel_counts_node_modules sampleHost "/proj/src/app.ts")
    as (_ & _ & H1 & H2).
  split.
  - apply H1. reflexivity.
  - apply H2; [reflexivity | discriminate].
Defined.

(** ** Further facts: paths *)
Section PathEdges.

Lemma substring_0_split (k : nat) (s : string) :
  exists rest, s = String.substring 0 k s +:+ rest.
Proof.
  revert k. induction s as [|c s IH]; intros k.
  - exists EmptyString. destruct k; reflexivity.
  - destruct k as [|k].
    + exists (String c s). reflexivity.
    + destruct (IH k) as [rest H]. exists rest.
      rewrite substring_0_cons.
      change (String c (substring 0 k s) +:+ rest)
        with (String c (substring 0 k s +:+ rest)).
      f_equal. exact H.
Qed.

Lemma substring_0_all (s : string) :
  String.substring 0 (String.length s) s = s.
Proof.
  induction s as [|c s IH]; [reflexivity|].
  simpl String.length. rewrite substring_0_cons, IH. reflexivity.
Qed.

Lemma length_append (a b : string) :
  String.length (a +:+ b) = (String.length a + String.length b)%nat.
Proof. induction a as [|c a IH]; simpl; [reflexivity | rewrite IH; reflexivity]. Qed.

Lemma dropS_append (a b : string) : dropS (String.length a) (a +:+ b) = b.
Proof. induction a as [|c a IH]; simpl; [reflexivity | exact IH]. Qed.

Lemma substring_0_0 (s : string) : String.substring 0 0 s = EmptyString.
Proof. destruct s; reflexivity. Qed.

Lemma substring_0_append (n t : string) :
  String.substring 0 (String.length n) (n +:+ t) = n.
Proof.
  induction n as [|a n IH]; [apply substring_0_0|].
  simpl. f_equal. exact IH.
Qed.

(** Cutting right after an occurrence: what comes before it, and it. *)
Lemma substring_upto_occurrence (n s : string) (i : nat) :
  startsWith n (dropS i s) = true ->
  String.substring 0 (i + String.length n) s = String.substring 0 i s +:+ n.
Proof.
  revert i. induction s as [|c s IH]; intros i H.
  - rewrite dropS_empty in H. apply startsWith_inv in H as [t H].
    destruct n; [|discriminate H]. destruct i; reflexivity.
  - destruct i as [|i].
    + simpl in H. apply startsWith_inv in H as [t H]. rewrite H.
      simpl Nat.add. rewrite substring_0_append, substring_0_0. reflexivity.
    + simpl in H. simpl Nat.add. rewrite !substring_0_cons, (IH i H).
      reflexivity.
Qed.

Lemma getPrefix_cases (mod_ : string) :
  (occurrences node_modules mod_ = O /\ getPrefix mod_ = EmptyString)
  \/ exists i,
       startsWith node_modules (dropS i mod_) = true
       /\ getPrefix mod_ = String.substring 0 i mod_ +:+ node_modules.
Proof.
  destruct (lastIndexOf_range mod_ node_modules) as [R|R].
  - left. apply lastIndexOf_none in R. split; [exact R|].
    apply getPrefix_none. exact R.
  - right.
    destruct (lastIndexOf_last mod_ node_modules
                (Z.to_nat (lastIndexOf mod_ node_modules))
                node_modules_nonempty) as [Hk Hklast]; [lia|].
    exists (Z.to_nat (lastIndexOf mod_ node_modules)). split; [exact Hk|].
    rewrite (getPrefix_last _ _ Hk Hklast).
    apply (substring_upto_occurrence node_modules). exact Hk.
Qed.

Lemma getPrefix_of_prefix (pre : string) :
  getPrefix (pre +:+ node_modules) = pre +:+ node_modules.
Proof.
  rewrite (getPrefix_last (pre +:+ node_modules) (String.length pre)).
  - replace (String.length pre + 12)%nat
      with (String.length (pre +:+ node_modules))
      by (rewrite length_append; reflexivity).
    apply substring_0_all.
  - rewrite dropS_append. reflexivity.
  - intros j Hj.
    destruct (startsWith node_modules (dropS j (pre +:+ node_modules))) eqn:E;
      [|reflexivity].
    apply (startsWith_dropS_length _ _ _ node_modules_nonempty) in E.
    rewrite length_append in E. simpl in E. lia.
Qed.

Lemma onRequired_ignored (host : Host) (s : Session) (r rest : string) :
  In r (cfg_ignore (cfg host)) -> onRequired host (r +:+ rest) s = s.
Proof.
  intros H. unfold onRequired.
  rewrite (isIgnored_prefix host (r +:+ rest) r rest H eq_refl). reflexivity.
Qed.

End PathEdges.

(** X1.  [getPrefix] answers a prefix of the path; the answer is empty
    exactly when the path has no [node_modules], and ends with
    [node_modules] otherwise; applying [getPrefix] to its own answer
    changes nothing, and the answer has the level of the path. *)
Theorem getPrefix_shape (mod_ : string) :
  (exists rest, mod_ = getPrefix mod_ +:+ rest)
  /\ (getPrefix mod_ = EmptyString <-> occurrences node_modules mod_ = O)
  /\ (getPrefix mod_ = EmptyString
      \/ exists pre, getPrefix mod_ = pre +:+ node_modules)
  /\ getPrefix (getPrefix mod_) = getPrefix mod_
  /\ getLevel (getPrefix mod_) = getLevel mod_.
Proof.
  assert (getPrefix (getPrefix mod_) = getPrefix mod_) as Hidem.
  { destruct (getPrefix_cases mod_) as [[_ H] | (i & _ & H)]; rewrite H.
    - reflexivity.
    - apply getPrefix_of_prefix. }
  split; [|split; [|split; [|split]]].
  - destruct (getPrefix_cases mod_) as [[_ H] | (i & Hi & H)]; rewrite H.
    + exists mod_. reflexivity.
    + rewrite <- (substring_upto_occurrence node_modules mod_ i Hi).
      apply substring_0_split.
  - split.
    + intros H. destruct (getPrefix_cases mod_) as [[H0 _] | (i & _ & H')];
        [exact H0|].
      rewrite H' in H. apply (f_equal String.length) in H.
      rewrite length_append in H. simpl in H. lia.
    + apply getPrefix_none.
  - destruct (getPrefix_cases mod_) as [[_ H] | (i & _ & H)]; [left; exact H|].
    right. eauto.
  - exact Hidem.
  - rewrite (getLevel_occurrences_prefix (getPrefix mod_)), Hidem.
    symmetry. apply getLevel_occurrences_prefix.
Qed.

(** X2.  The level is never negative.  So the depth test of the
    [required] handler holds exactly when [cfg.deps] is [-1] or the path
    has at most [cfg.deps] occurrences of [node_modules]: a bound below
    [-1] admits no path, and the bound [0] admits exactly the paths
    without [node_modules]. *)
Theorem depth_bound_edges (host : Host) (mod_ : string) :
  0 <= getLevel mod_
  /\ (depthOk host mod_ = true
      <-> cfg_deps (cfg host) = -1
          \/ Z.of_nat (occurrences node_modules mod_) <= cfg_deps (cfg host))
  /\ (cfg_deps (cfg host) < -1 -> depthOk host mod_ = false)
  /\ (cfg_deps (cfg host) = 0 ->
      (depthOk host mod_ = true <-> occurrences node_modules mod_ = O)).
Proof.
  pose proof (getLevel_occurrences mod_) as HL.
  assert (depthOk host mod_ = true
          <-> cfg_deps (cfg host) = -1
              \/ Z.of_nat (occurrences node_modules mod_) <= cfg_deps (cfg host))
    as Hd.
  { unfold depthOk. rewrite orb_true_iff, Z.eqb_eq, Z.leb_le, HL. reflexivity. }
  split; [lia|]. split; [exact Hd|]. split.
  - intros H. apply not_true_is_false. intros Ht. apply Hd in Ht. lia.
  - intros H. rewrite Hd. lia.
Qed.

(** A host whose bound is below [-1] refuses even a file of the project,
    and a host with bound [0] refuses a module of a dependency. *)
Lemma depth_bound_edges_witness :
  depthOk (mkHost (mkCfg false (-2) []) None [] literalRegExp literalGlob)
    "/proj/src/app.ts" = false
  /\ depthOk (mkHost (mkCfg false 0 []) None [] literalRegExp literalGlob)
       "/proj/node_modules/a/index.js" = false.
Proof.
  split.
  - destruct (depth_bound_edges
                (mkHost (mkCfg false (-2) []) None [] literalRegExp literalGlob)
                "/proj/src/app.ts") as (_ & _ & H & _).
    apply H. reflexivity.
  - destruct (depth_bound_edges
                (mkHost (mkCfg false 0 []) None [] literalRegExp literalGlob)
                "/proj/node_modules/a/index.js") as (_ & _ & _ & H).
    apply not_true_is_false. intros Ht. apply (H eq_refl) in Ht.
    vm_compute in Ht. discriminate Ht.
Defined.

(** X3.  An ignore rule blocks every required path it is a prefix of,
    whatever the regular expressions and the depth say; so one empty rule
    blocks every required path, and a rule blocks the path equal to it. *)
Theorem ignore_rule_prefix (host : Host) (s : Session) (r rest : string) :
  In r (cfg_ignore (cfg host)) ->
  isPrefixOf (r +:+ rest) r = true
  /\ onRequired host (r +:+ rest) s = s
  /\ (r = EmptyString -> forall required, onRequired host required s = s)
  /\ onRequired host r s = s.
Proof.
  intros Hr.
  assert (forall rest', onRequired host (r +:+ rest') s = s) as H.
  { intros rest'. apply onRequired_ignored. exact Hr. }
  split; [apply isPrefixOf_spec; exists rest; reflexivity|].
  split; [apply H|]. split.
  - intros -> required. apply (H required).
  - pose proof (H EmptyString) as H0.
    assert (r +:+ EmptyString = r) as E.
    { clear. induction r as [|c r IH]; [reflexivity|].
      change (String c (r +:+ EmptyString) = String c r). f_equal. exact IH. }
    rewrite E in H0. exact H0.
Qed.

(** The sample host ignores [/proj/dist]: a module below it is blocked,
    and so is the directory itself. *)
Lemma ignore_rule_prefix_witness :
  onRequired sampleHost "/proj/dist/app.js" (boot sampleHost) = boot sampleHost
  /\ onRequired sampleHost "/proj/dist" (boot sampleHost) = boot sampleHost.
Proof.
  destruct (ignore_rule_prefix sampleHost (boot sampleHost) "/proj/dist" "/app.js")
    as (_ & H1 & _ & H2); [left; reflexivity|].
  split; [exact H1 | exact H2].
Defined.

(** ** Further facts: what a run does to the store of processes *)
Section StoreGrowth.

Variable host : Host.

Lemma grows_refl (p : Process) : grows p p.
Proof.
  repeat (split; [auto|]). exists []. rewrite app_nil_r. reflexivity.
Qed.

Lemma grows_trans (p1 p2 p3 : Process) :
  grows p1 p2 -> grows p2 p3 -> grows p1 p3.
Proof.
  intros (A1 & A2 & A3 & A4 & (l & A5)) (B1 & B2 & B3 & B4 & (l' & B5)).
  repeat (split; [auto|]). exists (l ++ l'). rewrite B5, A5, app_assoc.
  reflexivity.
Qed.

Lemma storeGrows_refl (s : Session) : storeGrows host s s.
Proof.
  split; [lia|]. intros q p' Hq. rewrite Hq. apply grows_refl.
Qed.

Lemma storeGrows_ext (s s' : Session) :
  procs s' = procs s -> storeGrows host s s'.
Proof.
  intros E. split; [rewrite E; lia|].
  intros q p' Hq. rewrite E in Hq. rewrite Hq. apply grows_refl.
Qed.

Lemma storeGrows_trans (s1 s2 s3 : Session) :
  storeGrows host s1 s2 -> storeGrows host s2 s3 -> storeGrows host s1 s3.
Proof.
  intros [L12 H12] [L23 H23]. split; [lia|].
  intros q p3 Hq. specialize (H23 q p3 Hq).
  destruct (procs s2 !! q) as [p2|] eqn:E2.
  - specialize (H12 q p2 E2).
    destruct (procs s1 !! q) as [p1|];
      apply (grows_trans _ p2); assumption.
  - assert (procs s1 !! q = None) as ->; [|exact H23].
    apply lookup_ge_None. apply lookup_ge_None in E2. lia.
Qed.

Lemma storeGrows_setProc (c : nat) (p p' : Process) (s : Session) :
  procs s !! c = Some p ->
  grows p p' ->
  storeGrows host s (setProc c p' s).
Proof.
  intros Hp Hg. split; [simpl; rewrite length_insert; lia|].
  intros q pq Hq. simpl in Hq.
  destruct (decide (c = q)) as [<-|Hne].
  - rewrite list_lookup_insert_eq in Hq
      by (apply lookup_lt_Some in Hp; exact Hp).
    injection Hq as <-. rewrite Hp. exact Hg.
  - rewrite list_lookup_insert_ne in Hq by exact Hne.
    rewrite Hq. apply grows_refl.
Qed.

Lemma storeGrows_fork (s s' : Session) :
  procs s' = procs s ++ [forked host] -> storeGrows host s s'.
Proof.
  intros E. split; [rewrite E, length_app; lia|].
  intros q p' Hq. rewrite E in Hq.
  destruct (procs s !! q) as [p|] eqn:Ep.
  - rewrite (lookup_app_l_Some _ _ _ _ Ep) in Hq. injection Hq as <-.
    apply grows_refl.
  - apply lookup_ge_None in Ep.
    rewrite lookup_app_r in Hq by exact Ep.
    destruct (q - length (procs s))%nat; simpl in Hq; [|discriminate Hq].
    injection Hq as <-. apply grows_refl.
Qed.

Lemma storeGrows_stopRunner (c : nat) (w : option bool) (s : Session) :
  storeGrows host s (stopRunner c w s).
Proof.
  unfold stopRunner.
  destruct (procs s !! c) as [p|] eqn:Hp; [|apply storeGrows_refl].
  destruct (exited p || stopping p); [apply storeGrows_refl|].
  assert (forall p' s', procs s' = <[c := p']> (procs s) ->
                        grows p p' -> storeGrows host s s') as H.
  { intros p' s' E Hg.
    pose proof (storeGrows_setProc c p p' s Hp Hg) as [L G].
    split; [rewrite E; exact L | rewrite E; exact G]. }
  destruct (connected p) as [[|]|] eqn:Ec;
    [destruct (truthy w)| |destruct (truthy w)];
    (eapply H; [simpl; rewrite ?list_insert_insert_eq; reflexivity|]);
    (split; [auto|]); (split; [auto|]); (split; [auto|]);
    (split; [simpl; congruence || auto|]);
    exists []; simpl; rewrite app_nil_r; reflexivity.
Qed.

Lemma storeGrows_restartRunner (file : string) (s : Session) :
  storeGrows host s (restartRunner host file s).
Proof.
  rewrite restartRunner_unfold.
  destruct (runnerRestarting s); [apply storeGrows_ext; reflexivity|].
  cbv zeta. destruct (procs s !! runner s) as [p|] eqn:Hp;
    [|apply storeGrows_ext; reflexivity].
  destruct (exited p); simpl.
  - apply storeGrows_fork.
    exact (proj1 (exitOfRestartRunner_spec host
                    (setRunnerRestarting true (afterPrelude host file s)))).
  - eapply storeGrows_trans; [|apply storeGrows_stopRunner].
    pose proof (storeGrows_setProc (runner s) p (withRestartListener p) s Hp)
      as H.
    apply H. repeat (split; [auto|]). exists [ExitOfRestartRunner]. reflexivity.
Qed.

Lemma storeGrows_exitOfStartRunner (child : nat) (code : option Z)
  (signal : option string) (s : Session) :
  storeGrows host s (exitOfStartRunner child code signal s).
Proof.
  unfold exitOfStartRunner.
  destruct (procs s !! child) as [p|] eqn:Hp; [|apply storeGrows_refl].
  destruct (exited p); [apply storeGrows_refl|].
  destruct (respawn p); simpl.
  - apply (storeGrows_setProc child p); [exact Hp|].
    repeat (split; [auto|]). exists []. simpl. rewrite app_nil_r. reflexivity.
  - apply storeGrows_ext. reflexivity.
Qed.

Lemma storeGrows_emitExit (child : nat) (code : option Z)
  (signal : option string) (s : Session) :
  storeGrows host s (emitExit host child code signal s).
Proof.
  unfold emitExit.
  destruct (procs s !! child) as [p|]; [|apply storeGrows_refl].
  generalize (exitListeners p). intros ls. revert s.
  induction ls as [|l ls IH]; intros s; simpl; [apply storeGrows_refl|].
  eapply storeGrows_trans; [|apply IH].
  unfold runExitListener. destruct (terminated s); [apply storeGrows_refl|].
  destruct l; [apply storeGrows_exitOfStartRunner|].
  apply storeGrows_fork. exact (proj1 (exitOfRestartRunner_spec host s)).
Qed.

Lemma storeGrows_handle (ev : Event) (s : Session) :
  storeGrows host s (handle host ev s).
Proof.
  destruct ev; simpl.
  - unfold coreListener. destruct (isIgnoredByCoreListener host file);
      [apply storeGrows_refl | apply storeGrows_restartRunner].
  - apply storeGrows_restartRunner.
  - apply storeGrows_emitExit.
  - destruct (hasChild child s); [|apply storeGrows_refl].
    unfold onRequired.
    destruct (isIgnored host required) as [ignored|rule];
      [destruct (negb ignored && depthOk host required)|];
      [apply storeGrows_ext; reflexivity | apply storeGrows_refl
      | apply storeGrows_ext; reflexivity].
  - destruct (hasChild child s); [|apply storeGrows_refl].
    unfold onError.
    eapply storeGrows_trans;
      [apply (storeGrows_ext s (emit ConsoleError s)); reflexivity|].
    eapply storeGrows_trans; [apply storeGrows_stopRunner|].
    apply storeGrows_ext. reflexivity.
  - destruct (hasChild child s); [|apply storeGrows_refl].
    apply storeGrows_ext. reflexivity.
  - apply storeGrows_stopRunner.
  - unfold channelClosed.
    destruct (procs s !! child) as [p|] eqn:Hp; [|apply storeGrows_refl].
    apply (storeGrows_setProc child p); [exact Hp|].
    repeat (split; [auto|]). exists []. simpl. rewrite app_nil_r. reflexivity.
  - unfold onTerminationSignal.
    destruct (procs s !! runner s) as [p|]; [|apply storeGrows_refl].
    destruct (exited p); apply storeGrows_ext; reflexivity.
  - unfold settleSigterm.
    destruct (pendingSigterms s !! i) as [[pid k]|]; [|apply storeGrows_refl].
    destruct k, ok; apply storeGrows_ext; reflexivity.
Qed.

Lemma storeGrows_step (ev : Event) (s : Session) :
  storeGrows host s (step host ev s).
Proof.
  unfold step. destruct (terminated s);
    [apply storeGrows_refl | apply storeGrows_handle].
Qed.

Lemma storeGrows_run (evs : list Event) (s : Session) :
  storeGrows host s (run host evs s).
Proof.
  revert s. induction evs as [|ev evs IH]; intros s; [apply storeGrows_refl|].
  change (run host (ev :: evs) s) with (run host evs (step host ev s)).
  eapply storeGrows_trans; [apply storeGrows_step | apply IH].
Qed.

End StoreGrowth.

(** X4.  Whatever the events, the objects of the store only grow: a
    process keeps its handle; its flags [exited], [stopping] and
    [respawn], once set, stay set; its channel, once closed, stays closed;
    listeners are only added to its [exit].  And every process that
    appears was forked by [startRunner] and has grown since. *)
Theorem flags_only_grow
  (host : Host) (s : Session) (evs : list Event) (q : nat) (p : Process) :
  procs s !! q = Some p ->
  (exists p', procs (run host evs s) !! q = Some p' /\ grows p p')
  /\ (forall q' p',
        procs (run host evs s) !! q' = Some p' ->
        procs s !! q' = None ->
        grows (forked host) p').
Proof.
  intros Hp. destruct (storeGrows_run host evs s) as [L G]. split.
  - destruct (procs (run host evs s) !! q) as [p'|] eqn:E.
    + exists p'. split; [reflexivity|]. specialize (G q p' E).
      rewrite Hp in G. exact G.
    + apply lookup_ge_None in E. apply lookup_lt_Some in Hp. lia.
  - intros q' p' Hq' Hn. specialize (G q' p' Hq'). rewrite Hn in G. exact G.
Qed.

(** The first runner of the sample host through a restart, its exit and
    an error of the replacement: still in the store, exited and stopping. *)
Lemma flags_only_grow_witness :
  exists p',
    procs (run sampleHost
             [Restart "a.ts"; ChildExit 0 None (Some "SIGTERM");
              ErrorMsg 1 (Some true)]
             (boot sampleHost)) !! 0%nat = Some p'
    /\ grows (forked sampleHost) p'.
Proof.
  apply (flags_only_grow sampleHost (boot sampleHost)
           [Restart "a.ts"; ChildExit 0 None (Some "SIGTERM");
            ErrorMsg 1 (Some true)] 0%nat (forked sampleHost)).
  vm_compute. reflexivity.
Defined.

(** ** Further facts: one runner at a time *)
Section OneRunner.

Variable host : Host.

Lemma spawns_trace_eq (s s' : Session) :
  trace s' = trace s -> spawns s' = spawns s.
Proof. apply countEffects_trace_eq. Qed.

Lemma spawns_emit (e : Effect) (s : Session) :
  isFork e = false -> spawns (emit e s) = spawns s.
Proof.
  intros He. unfold spawns.
  rewrite (countEffects_trace_app isFork s (emit e s) [e] eq_refl).
  simpl. rewrite He. simpl. lia.
Qed.

Lemma runnerIsNewest_same (s s' : Session) :
  runner s' = runner s ->
  length (procs s') = length (procs s) ->
  spawns s' = spawns s ->
  runnerIsNewest s -> runnerIsNewest s'.
Proof. unfold runnerIsNewest. intros -> -> ->. tauto. Qed.

Lemma runnerIsNewest_exitOfRestartRunner (s : Session) :
  spawns s = length (procs s) -> runnerIsNewest (exitOfRestartRunner host s).
Proof.
  intros H. destruct (exitOfRestartRunner_spec host s)
    as (E1 & E2 & _ & _ & _ & _ & _ & E8).
  unfold runnerIsNewest. rewrite E1, E2, E8, length_app. simpl. lia.
Qed.

Lemma runnerIsNewest_stopRunner (c : nat) (w : option bool) (s : Session) :
  runnerIsNewest s -> runnerIsNewest (stopRunner c w s).
Proof.
  destruct (stopRunner_frame c w s) as (E1 & _ & _ & _ & _ & _ & E7 & E8).
  apply runnerIsNewest_same; assumption.
Qed.

Lemma runnerIsNewest_restartRunner (file : string) (s : Session) :
  runnerIsNewest s -> runnerIsNewest (restartRunner host file s).
Proof.
  intros H. rewrite restartRunner_unfold.
  pose proof (spawns_afterPrelude host file s) as Hsp.
  destruct (runnerRestarting s).
  - apply (runnerIsNewest_same s); auto.
  - cbv zeta. destruct (procs s !! runner s) as [p|].
    + destruct (exited p); simpl.
      * apply runnerIsNewest_exitOfRestartRunner.
        change (spawns (afterPrelude host file s) = length (procs s)).
        rewrite Hsp. apply H.
      * apply runnerIsNewest_stopRunner.
        apply (runnerIsNewest_same s); auto.
        simpl. apply length_insert.
    + apply (runnerIsNewest_same s); auto.
Qed.

Lemma runnerIsNewest_exitOfStartRunner (child : nat) (code : option Z)
  (signal : option string) (s : Session) :
  runnerIsNewest s -> runnerIsNewest (exitOfStartRunner child code signal s).
Proof.
  intros H. unfold exitOfStartRunner.
  destruct (procs s !! child) as [p|]; [|exact H].
  destruct (exited p); [exact H|].
  destruct (respawn p); simpl.
  - apply (runnerIsNewest_same s); auto. simpl. apply length_insert.
  - apply (runnerIsNewest_same s); auto.
    apply (spawns_emit (ProcessExit (default 1 code)) s). reflexivity.
Qed.

Lemma runnerIsNewest_emitExit (child : nat) (code : option Z)
  (signal : option string) (s : Session) :
  runnerIsNewest s -> runnerIsNewest (emitExit host child code signal s).
Proof.
  intros H. unfold emitExit.
  destruct (procs s !! child) as [p|]; [|exact H].
  generalize (exitListeners p). intros ls. revert s H.
  induction ls as [|l ls IH]; intros s H; simpl; [exact H|].
  apply IH. unfold runExitListener. destruct (terminated s); [exact H|].
  destruct l; [apply runnerIsNewest_exitOfStartRunner; exact H|].
  apply runnerIsNewest_exitOfRestartRunner. apply H.
Qed.

Lemma runnerIsNewest_handle (ev : Event) (s : Session) :
  runnerIsNewest s -> runnerIsNewest (handle host ev s).
Proof.
  intros H. destruct ev; simpl.
  - unfold coreListener. destruct (isIgnoredByCoreListener host file);
      [exact H | apply runnerIsNewest_restartRunner; exact H].
  - apply runnerIsNewest_restartRunner; exact H.
  - apply runnerIsNewest_emitExit; exact H.
  - destruct (hasChild child s); [|exact H]. unfold onRequired.
    destruct (isIgnored host required) as [ignored|rule];
      [destruct (negb ignored && depthOk host required)|];
      [|exact H|]; apply (runnerIsNewest_same s); auto.
    + apply (spawns_emit (WatcherAddSilently required) s). reflexivity.
    + apply (spawns_emit (ThrowSyntaxError rule) s). reflexivity.
  - destruct (hasChild child s); [|exact H]. unfold onError.
    apply (runnerIsNewest_same
             (stopRunner (runner (emit ConsoleError s)) willTerminate
                (emit ConsoleError s))); auto.
    + apply (spawns_emit WatcherResume). reflexivity.
    + apply runnerIsNewest_stopRunner.
      apply (runnerIsNewest_same s); auto.
      apply (spawns_emit ConsoleError s). reflexivity.
  - destruct (hasChild child s); [|exact H].
    apply (runnerIsNewest_same s); auto. unfold onServerReady.
    rewrite (spawns_emit EmitServerReady) by reflexivity.
    apply (spawns_emit WatcherResume s). reflexivity.
  - apply runnerIsNewest_stopRunner; exact H.
  - unfold channelClosed. destruct (procs s !! child) as [p|]; [|exact H].
    apply (runnerIsNewest_same s); auto. simpl. apply length_insert.
  - unfold onTerminationSignal.
    destruct (procs s !! runner s) as [p|]; [|exact H].
    destruct (exited p); apply (runnerIsNewest_same s); auto.
    apply (spawns_emit (SendSigterm (runner s)) s). reflexivity.
  - unfold settleSigterm.
    destruct (pendingSigterms s !! i) as [[pid k]|]; [|exact H].
    destruct k, ok; apply (runnerIsNewest_same s); auto;
      unfold spawns, countEffects; simpl;
      rewrite ?List.filter_app; simpl; rewrite ?app_nil_r; reflexivity.
Qed.

Lemma runnerIsNewest_run (evs : list Event) (s : Session) :
  runnerIsNewest s -> runnerIsNewest (run host evs s).
Proof.
  revert s. induction evs as [|ev evs IH]; intros s H; [exact H|].
  change (run host (ev :: evs) s) with (run host evs (step host ev s)).
  apply IH. unfold step. destruct (terminated s); [exact H|].
  apply runnerIsNewest_handle. exact H.
Qed.

Lemma runnerIsNewest_boot : runnerIsNewest (boot host).
Proof.
  unfold boot, startRunnerDo, startRunner, runnerIsNewest, spawns, countEffects.
  destruct (truthyPath (tsConfigPath host)); simpl; split; reflexivity.
Qed.

End OneRunner.

(** X5.  In every reachable session the runner is the child forked
    last, and the store holds one process per fork of the trace: a fork
    always replaces the runner, and no child is forked aside. *)
Theorem runner_is_newest (host : Host) (s : Session) :
  reachable host s ->
  S (runner s) = length (procs s) /\ spawns s = length (procs s).
Proof.
  intros [evs ->]. apply runnerIsNewest_run. apply runnerIsNewest_boot.
Qed.

(** After a restart, the exit of the first runner and an error, the
    sample host has forked twice and its runner is the second child. *)
Lemma runner_is_newest_witness :
  let s := run sampleHost
             [Restart "a.ts"; ChildExit 0 None (Some "SIGTERM");
              ErrorMsg 1 (Some true)]
             (boot sampleHost) in
  S (runner s) = length (procs s) /\ spawns s = length (procs s).
Proof.
  apply (runner_is_newest sampleHost).
  exists [Restart "a.ts"; ChildExit 0 None (Some "SIGTERM");
          ErrorMsg 1 (Some true)].
  reflexivity.
Defined.

(** ** Further facts: the runner is replaced only after its exit *)
Section OthersExited.

Variable host : Host.

(** Where the runner stays, the other children stay exited. *)
Lemma othersExited_kept (s s' : Session) :
  runner s' = runner s ->
  length (procs s') = length (procs s) ->
  storeGrows host s s' ->
  othersExited s -> othersExited s'.
Proof.
  intros Er El [_ G] H q p' Hq Hne. rewrite Er in Hne.
  specialize (G q p' Hq).
  destruct (procs s !! q) as [p|] eqn:Ep.
  - apply G. apply (H q p Ep Hne).
  - apply lookup_ge_None in Ep. apply lookup_lt_Some in Hq. lia.
Qed.

(** Where the runner is replaced by a fork, its exit came first. *)
Lemma othersExited_forked (s s' : Session) (p' : Process) :
  runner s' = length (procs s) ->
  length (procs s') = S (length (procs s)) ->
  storeGrows host s s' ->
  (runner s < length (procs s))%nat ->
  procs s' !! runner s = Some p' ->
  exited p' = true ->
  othersExited s -> othersExited s'.
Proof.
  intros Er El [_ G] Hr Hp' Hex H q pq Hq Hne. rewrite Er in Hne.
  destruct (decide (q = runner s)) as [->|Hq'].
  - rewrite Hp' in Hq. injection Hq as <-. exact Hex.
  - specialize (G q pq Hq).
    destruct (procs s !! q) as [p|] eqn:Ep.
    + apply G. apply (H q p Ep Hq').
    + apply lookup_ge_None in Ep. apply lookup_lt_Some in Hq. lia.
Qed.

Lemma othersExited_restartRunner (file : string) (s : Session) :
  Good s -> othersExited s -> othersExited (restartRunner host file s).
Proof.
  intros [HI HF] H.
  pose proof (storeGrows_restartRunner host file s) as HG.
  pose proof HI as (Hr & _ & (p & Hp & _)).
  destruct (runnerRestarting s) eqn:Hb.
  - apply (othersExited_kept s); auto;
      rewrite restartRunner_unfold, Hb; reflexivity.
  - destruct (exited p) eqn:Hex.
    + assert (restartRunner host file s
              = exitOfRestartRunner host
                  (setRunnerRestarting true (afterPrelude host file s))) as E.
      { rewrite restartRunner_unfold, Hb. cbv zeta. rewrite Hp, Hex.
        reflexivity. }
      rewrite E in *.
      destruct (exitOfRestartRunner_spec host
                  (setRunnerRestarting true (afterPrelude host file s)))
        as (E1 & E2 & _).
      apply (othersExited_forked s _ p); auto.
      * rewrite E1, length_app. simpl. lia.
      * rewrite E1. apply lookup_app_l_Some. exact Hp.
    + destruct (restartRunner_live host file s p HI Hb Hp Hex)
        as (E1 & _ & _ & _ & _ & _ & E7 & _).
      apply (othersExited_kept s); auto.
Qed.

Lemma othersExited_emitExit (child : nat) (code : option Z)
  (signal : option string) (s : Session) :
  Good s ->
  terminated s = None ->
  firstExit (ChildExit child code signal) s = true ->
  othersExited s ->
  othersExited (emitExit host child code signal s).
Proof.
  intros HG Ht Hfirst H.
  pose proof (storeGrows_emitExit host child code signal s) as HS.
  pose proof HG as [(Hr & _ & (p & Hp & Hl)) HF].
  simpl in Hfirst.
  destruct (procs s !! child) as [pc|] eqn:Hc.
  2:{ unfold emitExit. rewrite Hc. exact H. }
  apply negb_true_iff in Hfirst.
  assert (child = runner s) as ->.
  { destruct (decide (child = runner s)) as [E|Hne]; [exact E|].
    rewrite (H child pc Hc Hne) in Hfirst. discriminate Hfirst. }
  assert (pc = p) as -> by congruence.
  destruct (runnerRestarting s) eqn:Hb.
  - pose proof (exit_in_flight host code signal s p HG Ht Hb Hp Hfirst) as HE.
    unfold step in HE. rewrite Ht in HE. simpl handle in HE.
    destruct HE as (_ & _ & E3 & E4 & _ & _ & _ & (p' & Hp' & Hex')).
    apply (othersExited_forked s _ p'); auto.
  - simpl in Hl.
    assert (emitExit host (runner s) code signal s
            = exitOfStartRunner (runner s) code signal s) as E.
    { unfold emitExit. rewrite Hp, Hl. simpl. unfold runExitListener.
      rewrite Ht. reflexivity. }
    rewrite E in *.
    apply (othersExited_kept s); auto;
      unfold exitOfStartRunner; rewrite Hp, Hfirst;
      destruct (respawn p); simpl; rewrite ?length_insert; reflexivity.
Qed.

Lemma othersExited_step (ev : Event) (s : Session) :
  Good s ->
  firstExit ev s = true ->
  othersExited s ->
  othersExited (step host ev s).
Proof.
  intros HG Hfirst H. unfold step.
  destruct (terminated s) eqn:Ht; [exact H|].
  pose proof (storeGrows_handle host ev s) as HS.
  destruct ev; simpl in *.
  - unfold coreListener in *. destruct (isIgnoredByCoreListener host file);
      [exact H | apply othersExited_restartRunner; assumption].
  - apply othersExited_restartRunner; assumption.
  - apply othersExited_emitExit; assumption.
  - apply (othersExited_kept s); auto;
      destruct (hasChild child s); try reflexivity; unfold onRequired;
      destruct (isIgnored host required) as [ignored|rule]; try reflexivity;
      destruct (negb ignored && depthOk host required); reflexivity.
  - destruct (stopRunner_frame (runner s) willTerminate (emit ConsoleError s))
      as (E1 & _ & _ & _ & _ & _ & E7 & _).
    apply (othersExited_kept s); auto;
      destruct (hasChild child s); try reflexivity; unfold onError; simpl;
      assumption.
  - apply (othersExited_kept s); auto;
      destruct (hasChild child s); reflexivity.
  - destruct (stopRunner_frame child willTerminate s)
      as (E1 & _ & _ & _ & _ & _ & E7 & _).
    apply (othersExited_kept s); auto.
  - apply (othersExited_kept s); auto;
      unfold channelClosed; destruct (procs s !! child); simpl;
      rewrite ?length_insert; reflexivity.
  - apply (othersExited_kept s); auto;
      unfold onTerminationSignal; destruct (procs s !! runner s) as [p|];
      try reflexivity; destruct (exited p); reflexivity.
  - apply (othersExited_kept s); auto;
      unfold settleSigterm; destruct (pendingSigterms s !! i) as [[pid k]|];
      try reflexivity; destruct k, ok; reflexivity.
Qed.

Lemma othersExited_run (evs : list Event) (s : Session) :
  Good s ->
  exitsOnce host evs s ->
  othersExited s ->
  othersExited (run host evs s).
Proof.
  revert s. induction evs as [|ev evs IH]; intros s HG Hev H; [exact H|].
  change (run host (ev :: evs) s) with (run host evs (step host ev s)).
  destruct Hev as [Hfirst Hev].
  apply IH; [|exact Hev|apply othersExited_step; assumption].
  unfold step. destruct (terminated s); [exact HG|].
  apply Good_handle. exact HG.
Qed.

Lemma othersExited_boot : othersExited (boot host).
Proof.
  intros q p Hq Hne. exfalso. apply Hne.
  apply lookup_lt_Some in Hq. revert Hq.
  unfold boot, startRunnerDo, startRunner.
  destruct (truthyPath (tsConfigPath host)); simpl; lia.
Qed.

End OthersExited.

(** X6.  As long as no child's exit is notified twice, every child but
    the runner has exited: a replacement is forked only after the exit of
    the runner it replaces, and two children that have not exited are one
    and the same. *)
Theorem one_runner_at_a_time (host : Host) (evs : list Event) :
  exitsOnce host evs (boot host) ->
  let s := run host evs (boot host) in
  (forall q p, procs s !! q = Some p -> q <> runner s -> exited p = true)
  /\ (forall q q' p p',
        procs s !! q = Some p -> procs s !! q' = Some p' ->
        exited p = false -> exited p' = false -> q = q').
Proof.
  intros Hev s.
  assert (othersExited s) as H.
  { apply othersExited_run; [|exact Hev|apply othersExited_boot].
    apply (Good_reachable host). exists []. reflexivity. }
  split; [exact H|].
  intros q q' p p' Hq Hq' Hex Hex'.
  destruct (decide (q = runner s)) as [->|Hne];
    [|rewrite (H q p Hq Hne) in Hex; discriminate Hex].
  destruct (decide (q' = runner s)) as [->|Hne'];
    [reflexivity | rewrite (H q' p' Hq' Hne') in Hex'; discriminate Hex'].
Qed.

(** Two restarts of the sample host, each runner exiting once. *)
Lemma one_runner_at_a_time_witness :
  let s := run sampleHost
             [Restart "a.ts"; ChildExit 0 None (Some "SIGTERM");
              ServerReadyMsg 1; Restart "b.ts"; Restart "c.ts";
              ChildExit 1 (Some 0) None]
             (boot sampleHost) in
  (forall q p, procs s !! q = Some p -> q <> runner s -> exited p = true)
  /\ (forall q q' p p',
        procs s !! q = Some p -> procs s !! q' = Some p' ->
        exited p = false -> exited p' = false -> q = q').
Proof.
  apply (one_runner_at_a_time sampleHost
           [Restart "a.ts"; ChildExit 0 None (Some "SIGTERM");
            ServerReadyMsg 1; Restart "b.ts"; Restart "c.ts";
            ChildExit 1 (Some 0) None]).
  vm_compute. repeat split.
Defined.

(** X7.  The guard of the exit listener protects the flag only.  When
    the exit of a child that has exited already, and that carries the
    listener of [restartRunner], is notified again, that listener runs
    again: one more runner is forked and takes the place of the current
    one, which stays in the store as it is. *)
Theorem repeated_exit_forks_again
  (host : Host) (s : Session) (child : nat) (p : Process)
  (code : option Z) (signal : option string) :
  terminated s = None ->
  procs s !! child = Some p ->
  exited p = true ->
  exitListeners p = [ExitOfStartRunner; ExitOfRestartRunner] ->
  let s' := step host (ChildExit child code signal) s in
  procs s' = procs s ++ [forked host]
  /\ runner s' = length (procs s)
  /\ runnerRestarting s' = false
  /\ spawns s' = S (spawns s)
  /\ terminated s' = None.
Proof.
  intros Ht Hp Hex Hl s'.
  assert (s' = exitOfRestartRunner host s) as ->.
  { subst s'. unfold step. rewrite Ht. simpl handle.
    unfold emitExit. rewrite Hp, Hl. simpl.
    unfold runExitListener at 2. rewrite Ht.
    unfold exitOfStartRunner. rewrite Hp, Hex.
    unfold runExitListener. rewrite Ht. reflexivity. }
  destruct (exitOfRestartRunner_spec host s)
    as (E1 & E2 & E3 & _ & _ & _ & E7 & E8).
  rewrite E1, E2, E3, E7, E8. auto.
Qed.

(** On the sample host a restart has completed and the second runner is
    alive; the exit of the first is notified once more: a third child is
    forked, and the second, still alive, is the runner no longer. *)
Lemma repeated_exit_forks_again_witness :
  let s := run sampleHost
             [Restart "a.ts"; ChildExit 0 None (Some "SIGTERM")]
             (boot sampleHost) in
  let s' := step sampleHost (ChildExit 0 None (Some "SIGTERM")) s in
  procs s' = procs s ++ [forked sampleHost]
  /\ runner s' = length (procs s)
  /\ runnerRestarting s' = false
  /\ spawns s' = S (spawns s)
  /\ terminated s' = None.
Proof.
  apply (repeated_exit_forks_again sampleHost
           (run sampleHost [Restart "a.ts"; ChildExit 0 None (Some "SIGTERM")]
              (boot sampleHost))
           0%nat
           (mkProcess true true true (Some false)
              [ExitOfStartRunner; ExitOfRestartRunner])
           None (Some "SIGTERM"));
    vm_compute; reflexivity.
Defined.

(** ** Further facts: when the session ends *)
Section Termination.

Variable host : Host.

Lemma terminated_restartRunner (file : string) (s : Session) :
  terminated (restartRunner host file s) = terminated s.
Proof.
  rewrite restartRunner_unfold.
  destruct (runnerRestarting s); [reflexivity|]. cbv zeta.
  destruct (procs s !! runner s) as [p|]; [|reflexivity].
  destruct (exited p); simpl.
  - apply (exitOfRestartRunner_spec host
             (setRunnerRestarting true (afterPrelude host file s))).
  - apply (stopRunner_frame (runner s) None
             (setProc (runner s) (withRestartListener p)
                (setRunnerRestarting true (afterPrelude host file s)))).
Qed.

(** The listeners of an exit end the session only through the listener
    of [startRunner], on a child that has not exited and is not to be
    respawned, and then with the child's code, or 1 for none. *)
Lemma listeners_terminate (child : nat) (code : option Z)
  (signal : option string) (p : Process) (c : Z) (ls : list ExitListener) :
  forall acc,
    terminated acc = None ->
    (exists p', procs acc !! child = Some p' /\ (p' = p \/ exited p' = true)) ->
    terminated
      (fold_left (fun a l => runExitListener host child code signal l a) ls acc)
    = Some c ->
    exited p = false /\ respawn p = false /\ c = default 1 code.
Proof.
  induction ls as [|l ls IH]; intros acc Ht (p' & Hp' & Hpp) Hc; simpl in Hc.
  - congruence.
  - unfold runExitListener at 2 in Hc. rewrite Ht in Hc. destruct l.
    + unfold exitOfStartRunner in Hc. rewrite Hp' in Hc.
      destruct (exited p') eqn:Hex.
      * apply (IH acc Ht); [exists p'; auto | exact Hc].
      * destruct Hpp as [->|Hpp]; [|congruence].
        destruct (respawn p) eqn:Hre; simpl in Hc.
        -- apply (IH (setProc child
                           (mkProcess true (stopping p) true (connected p)
                              (exitListeners p)) acc) Ht); [|exact Hc].
           eexists. split.
           ++ simpl. apply list_lookup_insert_eq.
              apply lookup_lt_Some in Hp'. exact Hp'.
           ++ right. reflexivity.
        -- rewrite (listeners_terminated host child code signal ls
                      (setTerminated (Some (default 1 code))
                         (emit (ProcessExit (default 1 code)) acc))
                      (default 1 code) eq_refl) in Hc.
           simpl in Hc. injection Hc as <-. auto.
    + destruct (exitOfRestartRunner_spec host acc)
        as (E1 & _ & _ & _ & _ & _ & E7 & _).
      apply (IH (exitOfRestartRunner host acc)); [congruence| |exact Hc].
      exists p'. split; [|exact Hpp].
      rewrite E1. apply lookup_app_l_Some. exact Hp'.
Qed.

Lemma step_terminates (ev : Event) (s : Session) (c : Z) :
  terminated s = None ->
  terminated (step host ev s) = Some c ->
  exists child code signal p,
    ev = ChildExit child code signal
    /\ procs s !! child = Some p
    /\ exited p = false /\ respawn p = false
    /\ c = default 1 code.
Proof.
  intros Ht. unfold step. rewrite Ht. destruct ev; simpl.
  - unfold coreListener. destruct (isIgnoredByCoreListener host file);
      [congruence | rewrite terminated_restartRunner; congruence].
  - rewrite terminated_restartRunner; congruence.
  - unfold emitExit. destruct (procs s !! child) as [p|] eqn:Hp; [|congruence].
    intros Hc.
    destruct (listeners_terminate child code signal p c (exitListeners p) s Ht)
      as (H1 & H2 & H3); [exists p; auto | exact Hc |].
    exists child, code, signal, p. auto.
  - destruct (hasChild child s); [|congruence]. unfold onRequired.
    destruct (isIgnored host required) as [ignored|rule];
      [destruct (negb ignored && depthOk host required)|];
      simpl; congruence.
  - destruct (hasChild child s); [|congruence]. unfold onError. simpl.
    destruct (stopRunner_frame (runner s) willTerminate (emit ConsoleError s))
      as (_ & _ & _ & _ & _ & E & _).
    simpl in E. rewrite E. congruence.
  - destruct (hasChild child s); simpl; congruence.
  - destruct (stopRunner_frame child willTerminate s)
      as (_ & _ & _ & _ & _ & E & _).
    rewrite E. congruence.
  - unfold channelClosed. destruct (procs s !! child); simpl; congruence.
  - unfold onTerminationSignal.
    destruct (procs s !! runner s) as [p|]; [|congruence].
    destruct (exited p); simpl; congruence.
  - unfold settleSigterm.
    destruct (pendingSigterms s !! i) as [[pid k]|]; [|congruence].
    destruct k, ok; simpl; congruence.
Qed.

(** The exit of a child that has not exited and is not to be respawned,
    in a reachable session: the session ends with the code, or with 1. *)
Lemma exit_is_fatal (s : Session) (child : nat) (p : Process)
  (code : option Z) (signal : option string) :
  reachable host s ->
  terminated s = None ->
  procs s !! child = Some p ->
  exited p = false ->
  respawn p = false ->
  step host (ChildExit child code signal) s
  = setTerminated (Some (default 1 code))
      (emit (ProcessExit (default 1 code)) s).
Proof.
  intros Hreach Ht Hp Hex Hre.
  destruct (Good_reachable host s Hreach) as [(_ & Hall & _) _].
  destruct (Forall_lookup_1 _ _ _ _ Hall Hp) as [_ [rest Hl]].
  unfold step. rewrite Ht. simpl handle.
  unfold emitExit. rewrite Hp, Hl. simpl fold_left.
  assert (runExitListener host child code signal ExitOfStartRunner s
          = setTerminated (Some (default 1 code))
              (emit (ProcessExit (default 1 code)) s)) as ->.
  { unfold runExitListener. rewrite Ht.
    unfold exitOfStartRunner. rewrite Hp, Hex, Hre. reflexivity. }
  apply (listeners_terminated host child code signal rest _ (default 1 code)).
  reflexivity.
Qed.

Lemma reachable_step (ev : Event) (s : Session) :
  reachable host s -> reachable host (step host ev s).
Proof.
  intros [evs ->]. exists (evs ++ [ev]).
  unfold run. rewrite fold_left_app. reflexivity.
Qed.

(** With [cfg.respawn] every process is to be respawned from its fork. *)
Lemma respawn_everywhere (s : Session) (q : nat) (p : Process) :
  cfg_respawn (cfg host) = true ->
  reachable host s ->
  procs s !! q = Some p ->
  respawn p = true.
Proof.
  intros Hc [evs ->] Hq.
  destruct (storeGrows_run host evs (boot host)) as [_ G].
  specialize (G q p Hq).
  assert (respawn (forked host) = true) as Hf by (simpl; rewrite Hc; reflexivity).
  destruct (procs (boot host) !! q) as [p0|] eqn:E0.
  - assert (p0 = forked host) as ->.
    { assert (procs (boot host) = [forked host]) as Eb.
      { unfold boot, startRunnerDo, startRunner.
        destruct (truthyPath (tsConfigPath host)); reflexivity. }
      rewrite Eb in E0. destruct q as [|q]; simpl in E0; [congruence|].
      destruct q; discriminate E0. }
    apply G. exact Hf.
  - apply G. exact Hf.
Qed.

End Termination.

(** X8.  The session ends by [process.exit] in one way only: the exit of
    a child that has not exited and whose [respawn] flag is false; the
    code is the child's, or 1 when the child has none (it was killed by a
    signal).  In a reachable session such an exit does end the session. *)
Theorem process_exit_only_on_unexpected_exit (host : Host) (s : Session) :
  terminated s = None ->
  (forall ev c,
      terminated (step host ev s) = Some c ->
      exists child code signal p,
        ev = ChildExit child code signal
        /\ procs s !! child = Some p
        /\ exited p = false /\ respawn p = false
        /\ c = default 1 code)
  /\ (forall child p signal,
        reachable host s ->
        procs s !! child = Some p ->
        exited p = false ->
        respawn p = false ->
        terminated (step host (ChildExit child None signal) s) = Some 1).
Proof.
  intros Ht. split.
  - intros ev c. apply step_terminates. exact Ht.
  - intros child p signal Hreach Hp Hex Hre.
    rewrite (exit_is_fatal host s child p None signal Hreach Ht Hp Hex Hre).
    reflexivity.
Qed.

(** The first runner of the sample host is killed by a signal: the
    session ends with code 1. *)
Lemma process_exit_only_on_unexpected_exit_witness :
  terminated (step sampleHost (ChildExit 0 None (Some "SIGKILL"))
                (boot sampleHost)) = Some 1.
Proof.
  destruct (process_exit_only_on_unexpected_exit sampleHost (boot sampleHost)
              eq_refl) as [_ H].
  apply (H 0%nat (forked sampleHost) (Some "SIGKILL")).
  - exists []. reflexivity.
  - reflexivity.
  - reflexivity.
  - reflexivity.
Defined.

(** X9.  With [cfg.respawn] set, every child carries the [respawn] flag
    from its fork on, and no run of events ends the session: the exit of
    a runner, asked for or not, never calls [process.exit]. *)
Theorem respawn_never_exits (host : Host) (evs : list Event) :
  cfg_respawn (cfg host) = true ->
  let s := run host evs (boot host) in
  terminated s = None
  /\ (forall q p, procs s !! q = Some p -> respawn p = true).
Proof.
  intros Hc s. split.
  - subst s.
    assert (forall evs' s0, reachable host s0 -> terminated s0 = None ->
                            terminated (run host evs' s0) = None) as H.
    { induction evs' as [|ev evs' IH]; intros s0 Hreach Ht; [exact Ht|].
      change (run host (ev :: evs') s0)
        with (run host evs' (step host ev s0)).
      apply IH; [apply reachable_step; exact Hreach|].
      destruct (terminated (step host ev s0)) as [c|] eqn:E; [|reflexivity].
      destruct (step_terminates host ev s0 c Ht E)
        as (child & code & signal & p & _ & Hp & _ & Hre & _).
      rewrite (respawn_everywhere host s0 child p Hc Hreach Hp) in Hre.
      discriminate Hre. }
    apply H; [exists []; reflexivity|].
    unfold boot, startRunnerDo, startRunner.
    destruct (truthyPath (tsConfigPath host)); reflexivity.
  - intros q p Hq. apply (respawn_everywhere host s q p Hc); [|exact Hq].
    exists evs. reflexivity.
Qed.

(** The respawning host survives the crash of its runner. *)
Lemma respawn_never_exits_witness :
  terminated (run respawningHost [ChildExit 0 (Some 1) None]
                (boot respawningHost)) = None.
Proof.
  apply (respawn_never_exits respawningHost [ChildExit 0 (Some 1) None]).
  reflexivity.
Defined.

(** ** Further facts: errors of the runner *)
Section ErrorFlow.

Variable host : Host.

(** A stop asked of a child that has not exited leaves it stopping and
    to be respawned, with the listeners it had. *)
Lemma stopRunner_on_live (c : nat) (w : option bool) (s : Session) (p : Process) :
  procs s !! c = Some p ->
  exited p = false ->
  (stopping p = true -> respawn p = true) ->
  exists p1,
    procs (stopRunner c w s) !! c = Some p1
    /\ exited p1 = false /\ stopping p1 = true /\ respawn p1 = true
    /\ exitListeners p1 = exitListeners p.
Proof.
  intros Hp Hex Hok. destruct (stopping p) eqn:Hs.
  - rewrite (stopRunner_noop c w s p Hp) by (rewrite Hs; apply orb_true_r).
    exists p. repeat split; auto.
  - destruct (stopRunner_marks c w s p Hp Hex Hs) as (p1 & H1 & H2 & H3 & H4 & H5).
    exists p1. repeat split; auto.
Qed.

(** The forks of [startRunner] add to the trace nothing an effect test
    that is false on its three calls can see. *)
Lemma countEffects_exitOfRestartRunner (f : Effect -> bool) (s : Session) :
  (forall n, f (Fork n) = false) ->
  (forall x, f (WatcherAddSilently x) = false) ->
  f WriteReadyFile = false ->
  countEffects f (exitOfRestartRunner host s) = countEffects f s.
Proof.
  intros H1 H2 H3.
  unfold exitOfRestartRunner, startRunnerDo, startRunner, countEffects.
  destruct (truthyPath (tsConfigPath host)); simpl;
    rewrite ?List.filter_app; simpl; rewrite ?H1, ?H2, ?H3; simpl;
    rewrite ?app_nil_r; reflexivity.
Qed.

Lemma countEffects_afterPrelude (f : Effect -> bool) (file : string) (s : Session) :
  (forall e, isPauseOrCompile e = true -> f e = false) ->
  countEffects f (afterPrelude host file s) = countEffects f s.
Proof.
  intros Hf. apply countEffects_in_flight; [exact Hf|].
  exists (restartPrelude host file). split; [reflexivity|].
  apply restartPrelude_pauseOrCompile.
Qed.

(** A restart asked when the runner has exited and none is in flight:
    the replacement is forked at once. *)
Lemma restartRunner_exited (file : string) (s : Session) (p : Process) :
  runnerRestarting s = false ->
  procs s !! runner s = Some p ->
  exited p = true ->
  restartRunner host file s
  = exitOfRestartRunner host
      (setRunnerRestarting true (afterPrelude host file s)).
Proof.
  intros Hb Hp Hex. rewrite restartRunner_unfold, Hb. cbv zeta.
  rewrite Hp, Hex. reflexivity.
Qed.

End ErrorFlow.

(** X10.  An error message, from whichever child, while the runner is
    alive and no restart is in flight: the runner is stopped, to be
    respawned, and the watcher resumed.  The exit of the runner that
    follows does not end the session and forks nothing, since no restart
    was asked.  The next change then finds the runner exited and forks its
    replacement at once, without any termination signal. *)
Theorem error_recovery
  (host : Host) (s : Session) (p : Process) (child : nat)
  (willTerminate : option bool) (code : option Z) (signal : option string)
  (file : string) :
  reachable host s ->
  terminated s = None ->
  runnerRestarting s = false ->
  (child < length (procs s))%nat ->
  procs s !! runner s = Some p ->
  exited p = false ->
  let s1 := step host (ErrorMsg child willTerminate) s in
  let s2 := step host (ChildExit (runner s) code signal) s1 in
  let s3 := step host (Restart file) s2 in
  (paused s1 = false
   /\ exists p1, procs s1 !! runner s = Some p1
                 /\ stopping p1 = true /\ respawn p1 = true)
  /\ (terminated s2 = None
      /\ spawns s2 = spawns s
      /\ runner s2 = runner s
      /\ runnerRestarting s2 = false
      /\ exists p2, procs s2 !! runner s = Some p2 /\ exited p2 = true)
  /\ (spawns s3 = S (spawns s)
      /\ runner s3 = length (procs s)
      /\ runnerRestarting s3 = false
      /\ paused s3 = true
      /\ countEffects isSigterm s3 = countEffects isSigterm s1).
Proof.
  intros Hreach Ht Hb Hc Hp Hex s1 s2 s3.
  pose proof (Good_reachable host s Hreach) as HG.
  pose proof HG as [(Hr & Hall & _) _].
  destruct (Forall_lookup_1 _ _ _ _ Hall Hp) as [Hok _].
  (* the error *)
  assert (s1 = onError willTerminate s) as E1.
  { subst s1. unfold step. rewrite Ht. simpl. unfold hasChild.
    rewrite bool_decide_eq_true_2 by exact Hc. reflexivity. }
  assert (Good s1) as HG1.
  { subst s1. unfold step. rewrite Ht. apply Good_handle. exact HG. }
  destruct (stopRunner_frame (runner s) willTerminate (emit ConsoleError s))
    as (F1 & F2 & _ & _ & _ & F6 & F7 & F8).
  destruct (stopRunner_on_live (runner s) willTerminate (emit ConsoleError s) p
              Hp Hex Hok) as (p1 & Hp1 & Hex1 & Hs1 & Hr1 & Hl1).
  assert (procs s1 !! runner s = Some p1) as Hp1' by (rewrite E1; exact Hp1).
  assert (runner s1 = runner s) as Er1 by (rewrite E1; exact F1).
  assert (runnerRestarting s1 = false) as Eb1
    by (rewrite E1; simpl; rewrite F2; exact Hb).
  assert (terminated s1 = None) as Et1
    by (rewrite E1; simpl; rewrite F6; exact Ht).
  assert (spawns s1 = spawns s) as Esp1.
  { rewrite E1. unfold onError.
    etransitivity; [apply (spawns_emit WatcherResume); reflexivity|].
    etransitivity; [exact F8|].
    apply (spawns_emit ConsoleError s). reflexivity. }
  assert (length (procs s1) = length (procs s)) as El1
    by (rewrite E1; exact F7).
  assert (exitListeners p1 = [ExitOfStartRunner]) as Hl1'.
  { destruct HG1 as [(_ & _ & (q & Hq & Hql)) _].
    rewrite Er1, Hp1', Eb1 in *. injection Hq as <-. exact Hql. }
  (* the exit *)
  assert (s2 = setProc (runner s)
                 (mkProcess true (stopping p1) (respawn p1) (connected p1)
                    (exitListeners p1)) s1) as E2.
  { subst s2. unfold step. rewrite Et1. simpl handle.
    unfold emitExit. rewrite Hp1', Hl1'. simpl.
    unfold runExitListener. rewrite Et1.
    unfold exitOfStartRunner. rewrite Hp1', Hex1, Hr1. simpl.
    rewrite Hl1'. reflexivity. }
  assert (procs s2 !! runner s
          = Some (mkProcess true (stopping p1) (respawn p1) (connected p1)
                    (exitListeners p1))) as Hp2.
  { rewrite E2. simpl. apply list_lookup_insert_eq. rewrite El1. exact Hr. }
  assert (runner s2 = runner s) as Er2 by (rewrite E2; exact Er1).
  assert (runnerRestarting s2 = false) as Eb2 by (rewrite E2; exact Eb1).
  assert (terminated s2 = None) as Et2 by (rewrite E2; exact Et1).
  assert (spawns s2 = spawns s) as Esp2 by (rewrite E2; exact Esp1).
  assert (length (procs s2) = length (procs s)) as El2
    by (rewrite E2; simpl; rewrite length_insert; exact El1).
  (* the change *)
  assert (s3 = exitOfRestartRunner host
                 (setRunnerRestarting true (afterPrelude host file s2))) as E3.
  { subst s3. unfold step. rewrite Et2. simpl handle.
    apply (restartRunner_exited host file s2
             (mkProcess true (stopping p1) (respawn p1) (connected p1)
                (exitListeners p1)));
      [exact Eb2 | rewrite Er2; exact Hp2 | reflexivity]. }
  destruct (exitOfRestartRunner_spec host
              (setRunnerRestarting true (afterPrelude host file s2)))
    as (G1 & G2 & G3 & G4 & _ & _ & _ & G8).
  split; [|split].
  - split; [rewrite E1; reflexivity|]. exists p1. auto.
  - split; [exact Et2|]. split; [exact Esp2|]. split; [exact Er2|].
    split; [exact Eb2|].
    eexists. split; [exact Hp2 | reflexivity].
  - rewrite E3, G8, G2, G3, G4.
    split.
    { change (S (spawns (afterPrelude host file s2)) = S (spawns s)).
      rewrite spawns_afterPrelude. f_equal. exact Esp2. }
    split; [exact El2|].
    split; [reflexivity|]. split; [reflexivity|].
    rewrite countEffects_exitOfRestartRunner by reflexivity.
    change (countEffects isSigterm (afterPrelude host file s2)
            = countEffects isSigterm s1).
    rewrite countEffects_afterPrelude
      by (intros [] He; try reflexivity; discriminate He).
    rewrite E2. reflexivity.
Qed.

(** The runner of the sample host reports an error it will die of, exits
    with code 1, and a file changes. *)
Lemma error_recovery_witness :
  let s := boot sampleHost in
  let s1 := step sampleHost (ErrorMsg 0 (Some true)) s in
  let s2 := step sampleHost (ChildExit (runner s) (Some 1) None) s1 in
  let s3 := step sampleHost (Restart "a.ts") s2 in
  (paused s1 = false
   /\ exists p1, procs s1 !! runner s = Some p1
                 /\ stopping p1 = true /\ respawn p1 = true)
  /\ (terminated s2 = None
      /\ spawns s2 = spawns s
      /\ runner s2 = runner s
      /\ runnerRestarting s2 = false
      /\ exists p2, procs s2 !! runner s = Some p2 /\ exited p2 = true)
  /\ (spawns s3 = S (spawns s)
      /\ runner s3 = length (procs s)
      /\ runnerRestarting s3 = false
      /\ paused s3 = true
      /\ countEffects isSigterm s3 = countEffects isSigterm s1).
Proof.
  apply (error_recovery sampleHost (boot sampleHost) (forked sampleHost)
           0%nat (Some true) (Some 1) None "a.ts");
    [exists []; vm_compute; reflexivity | vm_compute; try reflexivity; lia ..].
Defined.

(** X11.  A change while the runner is stopping already (an error was
    reported, its exit is awaited) and no restart is in flight: the
    restart registers its listener and waits; it adds the pause and the
    compilation to the trace and nothing else, so no second disconnect
    and no second termination signal.  The exit of the runner then forks
    the one replacement. *)
Theorem restart_of_stopping_runner
  (host : Host) (s : Session) (p : Process) (file : string)
  (code : option Z) (signal : option string) :
  reachable host s ->
  terminated s = None ->
  runnerRestarting s = false ->
  procs s !! runner s = Some p ->
  exited p = false ->
  stopping p = true ->
  let s1 := step host (Restart file) s in
  let s2 := step host (ChildExit (runner s) code signal) s1 in
  trace s1 = trace s ++ restartPrelude host file
  /\ pendingSigterms s1 = pendingSigterms s
  /\ runnerRestarting s1 = true
  /\ spawns s2 = S (spawns s)
  /\ runner s2 = length (procs s)
  /\ runnerRestarting s2 = false
  /\ terminated s2 = None.
Proof.
  intros Hreach Ht Hb Hp Hex Hs s1 s2.
  pose proof (Good_reachable host s Hreach) as HG.
  assert (s1 = setProc (runner s) (withRestartListener p)
                 (setRunnerRestarting true (afterPrelude host file s))) as E1.
  { subst s1. unfold step. rewrite Ht. simpl handle.
    rewrite restartRunner_unfold, Hb. cbv zeta. rewrite Hp, Hex. simpl negb.
    cbv iota.
    apply (stopRunner_noop _ _ _ (withRestartListener p)).
    - simpl. apply list_lookup_insert_eq. apply lookup_lt_Some in Hp. exact Hp.
    - simpl. rewrite Hs. apply orb_true_r. }
  assert (Good s1) as HG1.
  { subst s1. unfold step. rewrite Ht. apply Good_handle. exact HG. }
  assert (procs s1 !! runner s1 = Some (withRestartListener p)) as Hp1.
  { rewrite E1. simpl. apply list_lookup_insert_eq.
    apply lookup_lt_Some in Hp. exact Hp. }
  destruct (exit_in_flight host code signal s1 (withRestartListener p) HG1)
    as (C1 & C2 & C3 & _ & C5 & _); auto.
  { rewrite E1. exact Ht. }
  { rewrite E1. reflexivity. }
  assert (runner s1 = runner s) as Er by (rewrite E1; reflexivity).
  rewrite Er in C1, C2, C3, C5. fold s2 in C1, C2, C3, C5.
  rewrite C1, C2, C3, C5, E1. simpl. rewrite length_insert.
  repeat (split; [reflexivity|]).
  split; [|auto].
  f_equal. apply (spawns_afterPrelude host file s).
Qed.

(** The runner of the sample host reports an error, a file changes
    before its exit, and then it exits. *)
Lemma restart_of_stopping_runner_witness :
  let s := step sampleHost (ErrorMsg 0 (Some true)) (boot sampleHost) in
  let s1 := step sampleHost (Restart "a.ts") s in
  let s2 := step sampleHost (ChildExit (runner s) (Some 1) None) s1 in
  trace s1 = trace s ++ restartPrelude sampleHost "a.ts"
  /\ pendingSigterms s1 = pendingSigterms s
  /\ runnerRestarting s1 = true
  /\ spawns s2 = S (spawns s)
  /\ runner s2 = length (procs s)
  /\ runnerRestarting s2 = false
  /\ terminated s2 = None.
Proof.
  apply (restart_of_stopping_runner sampleHost
           (step sampleHost (ErrorMsg 0 (Some true)) (boot sampleHost))
           (mkProcess false true true (Some false) [ExitOfStartRunner])
           "a.ts" (Some 1) None);
    [exists [ErrorMsg 0 (Some true)]; vm_compute; reflexivity
    | vm_compute; reflexivity ..].
Defined.

(** ** Further facts: how often a child is disconnected and signalled *)
Section StopEffects.

Variable host : Host.

(** [f] sees disconnects and termination signals only, those of the
    child [c], at most one of a stop, and at most [k] of a relay. *)
Variable f : Effect -> bool.
Variable c k : nat.
Hypothesis f_other :
  forall e, isDisconnect e = false -> isSigterm e = false -> f e = false.
Hypothesis f_disconnect : forall child, child <> c -> f (Disconnect child) = false.
Hypothesis f_sigterm : forall child, child <> c -> f (SendSigterm child) = false.
Hypothesis f_stop : (length (List.filter f [Disconnect c; SendSigterm c]) <= 1)%nat.
Hypothesis f_relay : forall r, (length (List.filter f [SendSigterm r]) <= k)%nat.

Lemma stopBounded_refl (s : Session) : stopBounded f c 0 s s.
Proof. unfold stopBounded. lia. Qed.

Lemma stopBounded_trans (n1 n2 : nat) (s1 s2 s3 : Session) :
  stopBounded f c n1 s1 s2 -> stopBounded f c n2 s2 s3 ->
  stopBounded f c (n1 + n2) s1 s3.
Proof. unfold stopBounded. lia. Qed.

Lemma stopBounded_weaken (n m : nat) (s s' : Session) :
  (n <= m)%nat -> stopBounded f c n s s' -> stopBounded f c m s s'.
Proof. unfold stopBounded. lia. Qed.

Lemma stoppingBit_mono (s s' : Session) :
  storeGrows host s s' -> (stoppingBit c s <= stoppingBit c s')%nat.
Proof.
  intros [L G]. unfold stoppingBit.
  destruct (procs s !! c) as [p|] eqn:Hp; [|lia].
  destruct (stopping p) eqn:Hs; [|lia].
  destruct (procs s' !! c) as [p'|] eqn:Hp'.
  - specialize (G c p' Hp'). rewrite Hp in G.
    destruct G as (_ & G & _). rewrite (G Hs). lia.
  - apply lookup_ge_None in Hp'. apply lookup_lt_Some in Hp. lia.
Qed.

Lemma stopBounded_quiet (s s' : Session) (l : list Effect) :
  storeGrows host s s' ->
  trace s' = trace s ++ l ->
  List.filter f l = [] ->
  stopBounded f c 0 s s'.
Proof.
  intros HG Ht Hl. pose proof (stoppingBit_mono s s' HG) as Hm.
  unfold stopBounded. rewrite (countEffects_trace_app f s s' l Ht), Hl.
  simpl. lia.
Qed.

Lemma stopBounded_stopRunner (child : nat) (w : option bool) (s : Session) :
  stopBounded f c 0 s (stopRunner child w s).
Proof.
  destruct (procs s !! child) as [p|] eqn:Hp.
  2:{ unfold stopRunner. rewrite Hp. apply stopBounded_refl. }
  destruct (exited p || stopping p) eqn:Hn.
  { rewrite (stopRunner_noop child w s p Hp Hn). apply stopBounded_refl. }
  apply orb_false_iff in Hn as [Hex Hs].
  destruct (stopRunner_trace child w s p Hp Hex Hs) as [Ht _].
  destruct (decide (child = c)) as [->|Hne].
  - destruct (stopRunner_marks c w s p Hp Hex Hs) as (p' & Hp' & Hs' & _).
    unfold stopBounded, stoppingBit.
    rewrite (countEffects_trace_app f _ _ _ Ht), Hp, Hp', Hs, Hs'.
    assert (length (List.filter f
                      match connected p with
                      | Some false => []
                      | _ => Disconnect c ::
                               (if truthy w then [] else [SendSigterm c])
                      end) <= 1)%nat as Hle; [|lia].
    simpl in f_stop.
    destruct (connected p) as [[|]|]; destruct (truthy w); simpl;
      destruct (f (Disconnect c)); destruct (f (SendSigterm c));
      simpl in *; lia.
  - apply (stopBounded_quiet _ _ _ (storeGrows_stopRunner host child w s) Ht).
    destruct (connected p) as [[|]|]; destruct (truthy w); simpl;
      rewrite ?(f_disconnect child Hne), ?(f_sigterm child Hne); reflexivity.
Qed.

Lemma filter_startRunner (s : Session) :
  exists l,
    trace (exitOfRestartRunner host s) = trace s ++ l /\ List.filter f l = [].
Proof.
  unfold exitOfRestartRunner, startRunnerDo, startRunner.
  destruct (truthyPath (tsConfigPath host)); simpl; eexists;
    (split; [rewrite <- ?app_assoc; reflexivity|]); simpl;
    rewrite ?f_other by reflexivity; reflexivity.
Qed.

Lemma stopBounded_exitOfRestartRunner (s : Session) :
  stopBounded f c 0 s (exitOfRestartRunner host s).
Proof.
  destruct (filter_startRunner s) as (l & Hl & Hf).
  apply (stopBounded_quiet _ _ l); [|exact Hl|exact Hf].
  apply storeGrows_fork. exact (proj1 (exitOfRestartRunner_spec host s)).
Qed.

Lemma filter_restartPrelude (file : string) :
  List.filter f (restartPrelude host file) = [].
Proof.
  apply filter_pauseOrCompile; [|apply restartPrelude_pauseOrCompile].
  intros [] He; try discriminate He; apply f_other; reflexivity.
Qed.

Lemma stopBounded_afterPrelude (file : string) (s s' : Session) :
  procs s' = procs s ->
  trace s' = trace (afterPrelude host file s) ->
  stopBounded f c 0 s s'.
Proof.
  intros Ep Et.
  apply (stopBounded_quiet _ _ (restartPrelude host file));
    [apply storeGrows_ext; exact Ep | exact Et | apply filter_restartPrelude].
Qed.

Lemma stopBounded_restartRunner (file : string) (s : Session) :
  stopBounded f c 0 s (restartRunner host file s).
Proof.
  rewrite restartRunner_unfold.
  destruct (runnerRestarting s);
    [apply (stopBounded_afterPrelude file); reflexivity|].
  cbv zeta. destruct (procs s !! runner s) as [p|] eqn:Hp;
    [|apply (stopBounded_afterPrelude file); reflexivity].
  destruct (exited p); simpl.
  - apply (stopBounded_trans 0 0 s
             (setRunnerRestarting true (afterPrelude host file s)));
      [apply (stopBounded_afterPrelude file); reflexivity|].
    apply stopBounded_exitOfRestartRunner.
  - apply (stopBounded_trans 0 0 s
             (setProc (runner s) (withRestartListener p)
                (setRunnerRestarting true (afterPrelude host file s))));
      [|apply stopBounded_stopRunner].
    apply (stopBounded_quiet _ _ (restartPrelude host file));
      [|reflexivity|apply filter_restartPrelude].
    pose proof (storeGrows_setProc host (runner s) p (withRestartListener p) s Hp)
      as H.
    apply H. repeat (split; [auto|]). exists [ExitOfRestartRunner]. reflexivity.
Qed.

Lemma stopBounded_exitOfStartRunner (child : nat) (code : option Z)
  (signal : option string) (s : Session) :
  stopBounded f c 0 s (exitOfStartRunner child code signal s).
Proof.
  pose proof (storeGrows_exitOfStartRunner host child code signal s) as HG.
  revert HG. unfold exitOfStartRunner.
  destruct (procs s !! child) as [p|]; [|intros _; apply stopBounded_refl].
  destruct (exited p); [intros _; apply stopBounded_refl|].
  destruct (respawn p); simpl; intros HG.
  - apply (stopBounded_quiet _ _ [] HG); [simpl; rewrite app_nil_r|]; reflexivity.
  - apply (stopBounded_quiet _ _ [ProcessExit (default 1 code)] HG);
      [reflexivity|]. simpl. rewrite f_other by reflexivity. reflexivity.
Qed.

Lemma stopBounded_emitExit (child : nat) (code : option Z)
  (signal : option string) (s : Session) :
  stopBounded f c 0 s (emitExit host child code signal s).
Proof.
  unfold emitExit.
  destruct (procs s !! child) as [p|]; [|apply stopBounded_refl].
  generalize (exitListeners p). intros ls. revert s.
  induction ls as [|l ls IH]; intros s; simpl; [apply stopBounded_refl|].
  apply (stopBounded_trans 0 0 s (runExitListener host child code signal l s));
    [|apply IH].
  unfold runExitListener. destruct (terminated s); [apply stopBounded_refl|].
  destruct l; [apply stopBounded_exitOfStartRunner|].
  apply stopBounded_exitOfRestartRunner.
Qed.

Lemma stopBounded_handle (ev : Event) (s : Session) :
  stopBounded f c (if isGotSignal ev then k else 0) s (handle host ev s).
Proof.
  pose proof (storeGrows_handle host ev s) as HG.
  destruct ev; simpl in *.
  - unfold coreListener. destruct (isIgnoredByCoreListener host file);
      [apply stopBounded_refl | apply stopBounded_restartRunner].
  - apply stopBounded_restartRunner.
  - apply stopBounded_emitExit.
  - destruct (hasChild child s); [|apply stopBounded_refl].
    revert HG. unfold onRequired.
    destruct (isIgnored host required) as [ignored|rule];
      [destruct (negb ignored && depthOk host required)|];
      intros HG; [|apply stopBounded_refl|].
    + apply (stopBounded_quiet _ _ [WatcherAddSilently required] HG);
        [reflexivity|]. simpl. rewrite f_other by reflexivity. reflexivity.
    + apply (stopBounded_quiet _ _ [ThrowSyntaxError rule] HG);
        [reflexivity|]. simpl. rewrite f_other by reflexivity. reflexivity.
  - destruct (hasChild child s); [|apply stopBounded_refl]. unfold onError.
    apply (stopBounded_trans 0 0 s (emit ConsoleError s)).
    { apply (stopBounded_quiet _ _ [ConsoleError]);
        [apply storeGrows_ext; reflexivity | reflexivity |].
      simpl. rewrite f_other by reflexivity. reflexivity. }
    apply (stopBounded_trans 0 0 _
             (stopRunner (runner (emit ConsoleError s)) willTerminate
                (emit ConsoleError s)));
      [apply stopBounded_stopRunner|].
    apply (stopBounded_quiet _ _ [WatcherResume]);
      [apply storeGrows_ext; reflexivity | reflexivity |].
    simpl. rewrite f_other by reflexivity. reflexivity.
  - destruct (hasChild child s); [|apply stopBounded_refl].
    apply (stopBounded_quiet _ _ [WatcherResume; EmitServerReady] HG).
    + unfold onServerReady. simpl. rewrite <- app_assoc. reflexivity.
    + simpl. rewrite !f_other by reflexivity. reflexivity.
  - apply stopBounded_stopRunner.
  - revert HG. unfold channelClosed.
    destruct (procs s !! child) as [p|]; intros HG; [|apply stopBounded_refl].
    apply (stopBounded_quiet _ _ [] HG); [simpl; rewrite app_nil_r|]; reflexivity.
  - revert HG. unfold onTerminationSignal.
    destruct (procs s !! runner s) as [p|]; intros HG;
      [|unfold stopBounded; lia].
    destruct (exited p).
    + apply (stopBounded_weaken 0); [lia|].
      apply (stopBounded_quiet _ _ [] HG); [simpl; rewrite app_nil_r|]; reflexivity.
    + pose proof (stoppingBit_mono _ _ HG) as Hm. simpl in Hm.
      unfold stopBounded.
      rewrite (countEffects_trace_app f s
                 (sendSigterm (runner s) ThenResolve s)
                 [SendSigterm (runner s)] eq_refl).
      pose proof (f_relay (runner s)). simpl in *. lia.
  - revert HG. unfold settleSigterm.
    destruct (pendingSigterms s !! i) as [[pid k0]|]; intros HG;
      [|apply stopBounded_refl].
    destruct k0, ok;
      first [ apply (stopBounded_quiet _ _ [] HG);
              [simpl; rewrite app_nil_r; reflexivity | reflexivity]
            | apply (stopBounded_quiet _ _ [WarnSigtermFailed] HG);
              [reflexivity | simpl; rewrite f_other by reflexivity; reflexivity] ].
Qed.

Lemma stopBounded_run (evs : list Event) (s : Session) :
  stopBounded f c (k * countSignals evs) s (run host evs s).
Proof.
  revert s. induction evs as [|ev evs IH]; intros s.
  - simpl. rewrite Nat.mul_0_r. apply stopBounded_refl.
  - change (run host (ev :: evs) s) with (run host evs (step host ev s)).
    apply (stopBounded_weaken
             ((if isGotSignal ev then k else 0) + k * countSignals evs)).
    { unfold countSignals. simpl. destruct (isGotSignal ev); simpl; lia. }
    apply (stopBounded_trans _ _ s (step host ev s)); [|apply IH].
    unfold step. destruct (terminated s); [|apply stopBounded_handle].
    unfold stopBounded. lia.
Qed.

End StopEffects.

(** X12.  Over any run from the start of the session, a child is
    disconnected at most once, and not at all while it is not stopping;
    and it is sent at most one termination signal by the stops asked of
    it, whoever asks and however often, besides one for each termination
    signal the session relays. *)
Theorem stop_effects_once (host : Host) (evs : list Event) (c : nat) :
  let s := run host evs (boot host) in
  (countEffects (isDisconnectOf c) s <= stoppingBit c s)%nat
  /\ (countEffects (isDisconnectOf c) s <= 1)%nat
  /\ (countEffects (isSigtermTo c) s <= stoppingBit c s + countSignals evs)%nat
  /\ (countEffects (isSigtermTo c) s <= 1 + countSignals evs)%nat.
Proof.
  intros s.
  assert (stoppingBit c s <= 1)%nat as Hb.
  { unfold stoppingBit. destruct (procs s !! c) as [p|]; [|lia].
    destruct (stopping p); lia. }
  assert (forall g, countEffects g (boot host) = length (List.filter g
            (trace (boot host)))) as _ by reflexivity.
  assert (stoppingBit c (boot host) = 0%nat) as Hb0.
  { unfold stoppingBit, boot, startRunnerDo, startRunner.
    destruct (truthyPath (tsConfigPath host)); simpl;
      destruct c as [|[|c']]; reflexivity. }
  assert (countEffects (isDisconnectOf c) (boot host) = 0%nat
          /\ countEffects (isSigtermTo c) (boot host) = 0%nat) as [Hd0 Hs0].
  { unfold countEffects, boot, startRunnerDo, startRunner.
    destruct (truthyPath (tsConfigPath host)); split; reflexivity. }
  assert (stopBounded (isDisconnectOf c) c (0 * countSignals evs)
            (boot host) s) as Hd.
  { apply (stopBounded_run host (isDisconnectOf c) c 0).
    - intros [] H1 H2; try reflexivity; discriminate.
    - intros child Hne. simpl. apply Nat.eqb_neq. exact Hne.
    - intros child Hne. reflexivity.
    - simpl. rewrite Nat.eqb_refl. simpl. lia.
    - intros r. simpl. lia. }
  assert (stopBounded (isSigtermTo c) c (1 * countSignals evs)
            (boot host) s) as Hs.
  { apply (stopBounded_run host (isSigtermTo c) c 1).
    - intros [] H1 H2; try reflexivity; discriminate.
    - intros child Hne. reflexivity.
    - intros child Hne. simpl. apply Nat.eqb_neq. exact Hne.
    - simpl. rewrite Nat.eqb_refl. simpl. lia.
    - intros r. simpl. destruct (Nat.eqb r c); simpl; lia. }
  unfold stopBounded in Hd, Hs. rewrite Hb0, ?Hd0, ?Hs0 in *. lia.
Qed.

(** ** Further facts: what is added to the watched paths *)
Section WatchedPaths.

Variable host : Host.

Lemma adds_refl (s : Session) : adds host s s.
Proof.
  exists []. simpl. rewrite !app_nil_r. repeat split. constructor.
Qed.

Lemma adds_trans (s1 s2 s3 : Session) :
  adds host s1 s2 -> adds host s2 s3 -> adds host s1 s3.
Proof.
  intros (l1 & Ht1 & Hw1 & Hf1) (l2 & Ht2 & Hw2 & Hf2). exists (l1 ++ l2).
  unfold pathsOf in *. rewrite flat_map_app, Ht2, Ht1, Hw2, Hw1, <- !app_assoc.
  repeat split. apply Forall_app. split; assumption.
Qed.

Lemma adds_quiet (s s' : Session) (l : list Effect) :
  trace s' = trace s ++ l ->
  watched s' = watched s ->
  pathsOf l = [] ->
  adds host s s'.
Proof.
  intros Ht Hw Hl. exists l. rewrite Hl, app_nil_r.
  repeat split; [exact Ht | exact Hw | constructor].
Qed.

Lemma adds_stopRunner (child : nat) (w : option bool) (s : Session) :
  adds host s (stopRunner child w s).
Proof.
  destruct (procs s !! child) as [p|] eqn:Hp.
  2:{ unfold stopRunner. rewrite Hp. apply adds_refl. }
  destruct (exited p || stopping p) eqn:Hn.
  { rewrite (stopRunner_noop child w s p Hp Hn). apply adds_refl. }
  apply orb_false_iff in Hn as [Hex Hs].
  destruct (stopRunner_trace child w s p Hp Hex Hs) as [Ht _].
  destruct (stopRunner_frame child w s) as (_ & _ & _ & Hw & _).
  apply (adds_quiet _ _ _ Ht Hw).
  destruct (connected p) as [[|]|]; destruct (truthy w); reflexivity.
Qed.

Lemma adds_exitOfRestartRunner (s : Session) :
  adds host s (exitOfRestartRunner host s).
Proof.
  unfold exitOfRestartRunner, startRunnerDo, startRunner.
  destruct (truthyPath (tsConfigPath host)) as [q|] eqn:Hq; simpl.
  - exists [Fork (length (procs s)); WatcherAddSilently q; WriteReadyFile].
    unfold watcherAddSilently, emit; simpl. rewrite <- ?app_assoc. simpl.
    repeat split. constructor; [left; exact Hq | constructor].
  - apply (adds_quiet _ _ [Fork (length (procs s)); WriteReadyFile]);
      [unfold emit; simpl; rewrite <- ?app_assoc|..]; reflexivity.
Qed.

Lemma pathsOf_restartPrelude (file : string) :
  pathsOf (restartPrelude host file) = [].
Proof.
  unfold restartPrelude.
  destruct (tsConfigPath host) as [q|]; [destruct (String.eqb file q)|];
    reflexivity.
Qed.

Lemma adds_restartRunner (file : string) (s : Session) :
  adds host s (restartRunner host file s).
Proof.
  assert (adds host s (afterPrelude host file s)) as H0.
  { apply (adds_quiet _ _ (restartPrelude host file));
      [reflexivity | reflexivity | apply pathsOf_restartPrelude]. }
  rewrite restartRunner_unfold.
  destruct (runnerRestarting s); [exact H0|].
  cbv zeta. destruct (procs s !! runner s) as [p|].
  2:{ destruct H0 as (l & H1 & H2 & H3). exists l. repeat split; assumption. }
  destruct (exited p); simpl.
  - apply (adds_trans _ (setRunnerRestarting true (afterPrelude host file s)));
      [|apply adds_exitOfRestartRunner].
    destruct H0 as (l & H1 & H2 & H3). exists l. repeat split; assumption.
  - apply (adds_trans _ (setProc (runner s) (withRestartListener p)
                           (setRunnerRestarting true (afterPrelude host file s))));
      [|apply adds_stopRunner].
    destruct H0 as (l & H1 & H2 & H3). exists l. repeat split; assumption.
Qed.

Lemma adds_exitOfStartRunner (child : nat) (code : option Z)
  (signal : option string) (s : Session) :
  adds host s (exitOfStartRunner child code signal s).
Proof.
  unfold exitOfStartRunner.
  destruct (procs s !! child) as [p|]; [|apply adds_refl].
  destruct (exited p); [apply adds_refl|].
  destruct (respawn p); simpl.
  - apply (adds_quiet _ _ []); [simpl; rewrite app_nil_r|..]; reflexivity.
  - apply (adds_quiet _ _ [ProcessExit (default 1 code)]); reflexivity.
Qed.

Lemma adds_emitExit (child : nat) (code : option Z)
  (signal : option string) (s : Session) :
  adds host s (emitExit host child code signal s).
Proof.
  unfold emitExit.
  destruct (procs s !! child) as [p|]; [|apply adds_refl].
  generalize (exitListeners p). intros ls. revert s.
  induction ls as [|l ls IH]; intros s; simpl; [apply adds_refl|].
  apply (adds_trans _ (runExitListener host child code signal l s));
    [|apply IH].
  unfold runExitListener. destruct (terminated s); [apply adds_refl|].
  destruct l; [apply adds_exitOfStartRunner | apply adds_exitOfRestartRunner].
Qed.

Lemma adds_onRequired (required : string) (s : Session) :
  adds host s (onRequired host required s).
Proof.
  unfold onRequired.
  destruct (isIgnored host required) as [ignored|rule] eqn:Hi.
  2:{ apply (adds_quiet _ _ [ThrowSyntaxError rule]); reflexivity. }
  destruct ignored; simpl; [apply adds_refl|].
  destruct (depthOk host required) eqn:Hd; [|apply adds_refl].
  exists [WatcherAddSilently required]. repeat split.
  constructor; [|constructor]. right. split.
  - intros H. apply (isIgnored_normal host required false Hi) in H.
    discriminate H.
  - apply depthOk_spec. exact Hd.
Qed.

Lemma adds_handle (ev : Event) (s : Session) : adds host s (handle host ev s).
Proof.
  destruct ev; simpl.
  - unfold coreListener. destruct (isIgnoredByCoreListener host file);
      [apply adds_refl | apply adds_restartRunner].
  - apply adds_restartRunner.
  - apply adds_emitExit.
  - destruct (hasChild child s); [apply adds_onRequired | apply adds_refl].
  - destruct (hasChild child s); [|apply adds_refl]. unfold onError.
    apply (adds_trans _ (emit ConsoleError s)).
    { apply (adds_quiet _ _ [ConsoleError]); reflexivity. }
    apply (adds_trans _ (stopRunner (runner (emit ConsoleError s)) willTerminate
                           (emit ConsoleError s)));
      [apply adds_stopRunner|].
    apply (adds_quiet _ _ [WatcherResume]); reflexivity.
  - destruct (hasChild child s); [|apply adds_refl].
    apply (adds_quiet _ _ [WatcherResume; EmitServerReady]);
      [unfold onServerReady; simpl; rewrite <- app_assoc|..]; reflexivity.
  - apply adds_stopRunner.
  - unfold channelClosed.
    destruct (procs s !! child) as [p|]; [|apply adds_refl].
    apply (adds_quiet _ _ []); [simpl; rewrite app_nil_r|..]; reflexivity.
  - unfold onTerminationSignal.
    destruct (procs s !! runner s) as [p|]; [|apply adds_refl].
    destruct (exited p).
    + apply (adds_quiet _ _ []); [simpl; rewrite app_nil_r|..]; reflexivity.
    + apply (adds_quiet _ _ [SendSigterm (runner s)]); reflexivity.
  - unfold settleSigterm.
    destruct (pendingSigterms s !! i) as [[pid k0]|]; [|apply adds_refl].
    destruct k0, ok;
      first [ apply (adds_quiet _ _ []);
              [simpl; rewrite app_nil_r; reflexivity | reflexivity | reflexivity]
            | apply (adds_quiet _ _ [WarnSigtermFailed]); reflexivity ].
Qed.

Lemma adds_run (evs : list Event) (s : Session) : adds host s (run host evs s).
Proof.
  revert s. induction evs as [|ev evs IH]; intros s; [apply adds_refl|].
  change (run host (ev :: evs) s) with (run host evs (step host ev s)).
  apply (adds_trans _ (step host ev s)); [|apply IH].
  unfold step. destruct (terminated s); [apply adds_refl | apply adds_handle].
Qed.

Lemma adds_boot : adds host empty (boot host).
Proof.
  pose proof (adds_exitOfRestartRunner empty) as (l & H1 & H2 & H3).
  exists l. repeat split; assumption.
Qed.

End WatchedPaths.

(** X13.  Over any run from the start of the session, the paths the
    file watcher was given silently are, in the order of the calls, the
    [addSilently] calls of the trace, and each of them is the path of
    the TypeScript configuration or a path that no ignore rule blocks
    and whose nesting level is within the bound: no handler adds a path
    past the filter of the [required] message.  The path of the
    configuration, when there is one, is among them whatever the rules
    say. *)
Theorem watched_paths_filtered (host : Host) (evs : list Event) :
  let s := run host evs (boot host) in
  watched s = pathsOf (trace s)
  /\ Forall (watchable host) (watched s)
  /\ (forall e, In e (trace s) ->
        forall path, e = WatcherAddSilently path -> watchable host path)
  /\ (forall q, truthyPath (tsConfigPath host) = Some q -> In q (watched s)).
Proof.
  intros s.
  destruct (adds_boot host) as (l0 & Ht0 & Hw0 & Hf0).
  destruct (adds_run host evs (boot host)) as (l & Ht & Hw & Hf).
  fold s in Ht, Hw.
  change (watched empty) with (@nil string) in Hw0.
  change (trace empty) with (@nil Effect) in Ht0.
  rewrite app_nil_l in Ht0, Hw0.
  assert (watched s = pathsOf (trace s)) as E.
  { rewrite Hw, Ht, Hw0, Ht0. unfold pathsOf. rewrite flat_map_app.
    reflexivity. }
  assert (Forall (watchable host) (watched s)) as HF.
  { rewrite Hw, Hw0. apply Forall_app. split; assumption. }
  split; [exact E|]. split; [exact HF|]. split.
  - intros e He path ->. rewrite E in HF.
    apply (proj1 (List.Forall_forall _ _) HF).
    unfold pathsOf. apply List.in_flat_map. exists (WatcherAddSilently path).
    split; [exact He | left; reflexivity].
  - intros q Hq. rewrite Hw. apply in_or_app. left.
    unfold boot, startRunnerDo, startRunner. rewrite Hq. simpl.
    left. reflexivity.
Qed.

(** The sample host, whose first runner requires a source file: the
    configuration path and the file are watched, and the file is there
    by the filter. *)
Lemma watched_paths_filtered_witness :
  let s := run sampleHost [RequiredMsg 0 "/proj/src/a.ts"] (boot sampleHost) in
  watched s = ["tsconfig.json"; "/proj/src/a.ts"]
  /\ In "tsconfig.json" (watched s)
  /\ watchable sampleHost "/proj/src/a.ts".
Proof.
  destruct (watched_paths_filtered sampleHost [RequiredMsg 0 "/proj/src/a.ts"])
    as (_ & _ & H3 & H4).
  split; [vm_compute; reflexivity|]. split.
  - apply H4. vm_compute. reflexivity.
  - apply (H3 (WatcherAddSilently "/proj/src/a.ts")); [|reflexivity].
    vm_compute. do 3 right. left. reflexivity.
Defined.

(** ** Further facts: the resolution of the session *)
Section Resolution.

Variable host : Host.

Lemma onlyLogs_refl (s : Session) : onlyLogs s s.
Proof.
  split; [reflexivity|]. exists []. rewrite app_nil_r. split; constructor.
Qed.

Lemma onlyLogs_trans (s1 s2 s3 : Session) :
  onlyLogs s1 s2 -> onlyLogs s2 s3 -> onlyLogs s1 s3.
Proof.
  intros (Hr1 & l1 & Hp1 & Hf1) (Hr2 & l2 & Hp2 & Hf2).
  split; [congruence|]. exists (l1 ++ l2).
  rewrite Hp2, Hp1, <- app_assoc. split; [reflexivity|].
  apply Forall_app. split; assumption.
Qed.

Lemma onlyLogs_same (s s' : Session) :
  resolved s' = resolved s ->
  pendingSigterms s' = pendingSigterms s ->
  onlyLogs s s'.
Proof.
  intros Hr Hp. split; [exact Hr|]. exists []. rewrite app_nil_r.
  split; [exact Hp | constructor].
Qed.

Lemma onlyLogs_resolving (s s' : Session) :
  onlyLogs s s' -> resolving s' -> resolving s.
Proof.
  intros (Hr & l & Hp & Hf) [H | (pid & H)]; [left; congruence|].
  rewrite Hp in H. apply in_app_or in H as [H|H]; [right; eauto|].
  apply (proj1 (List.Forall_forall _ _) Hf) in H. discriminate H.
Qed.

Lemma onlyLogs_stopRunner (child : nat) (w : option bool) (s : Session) :
  onlyLogs s (stopRunner child w s).
Proof.
  destruct (stopRunner_frame child w s) as (_ & _ & _ & _ & Hr & _).
  split; [exact Hr|].
  destruct (procs s !! child) as [p|] eqn:Hp.
  2:{ unfold stopRunner. rewrite Hp. exists []. rewrite app_nil_r.
      split; constructor. }
  destruct (exited p || stopping p) eqn:Hn.
  { rewrite (stopRunner_noop child w s p Hp Hn). exists [].
    rewrite app_nil_r. split; constructor. }
  apply orb_false_iff in Hn as [Hex Hs].
  destruct (stopRunner_trace child w s p Hp Hex Hs) as [_ Hq].
  eexists. split; [exact Hq|].
  destruct (connected p) as [[|]|]; destruct (truthy w);
    repeat constructor.
Qed.

Lemma onlyLogs_exitOfRestartRunner (s : Session) :
  onlyLogs s (exitOfRestartRunner host s).
Proof.
  destruct (exitOfRestartRunner_spec host s) as (_ & _ & _ & _ & Hq & Hr & _).
  apply onlyLogs_same; assumption.
Qed.

Lemma onlyLogs_restartRunner (file : string) (s : Session) :
  onlyLogs s (restartRunner host file s).
Proof.
  rewrite restartRunner_unfold.
  destruct (runnerRestarting s); [apply onlyLogs_same; reflexivity|].
  cbv zeta. destruct (procs s !! runner s) as [p|];
    [|apply onlyLogs_same; reflexivity].
  destruct (exited p); simpl.
  - apply (onlyLogs_trans _ (setRunnerRestarting true (afterPrelude host file s)));
      [apply onlyLogs_same; reflexivity | apply onlyLogs_exitOfRestartRunner].
  - apply (onlyLogs_trans _ (setProc (runner s) (withRestartListener p)
                               (setRunnerRestarting true
                                  (afterPrelude host file s))));
      [apply onlyLogs_same; reflexivity | apply onlyLogs_stopRunner].
Qed.

Lemma onlyLogs_emitExit (child : nat) (code : option Z)
  (signal : option string) (s : Session) :
  onlyLogs s (emitExit host child code signal s).
Proof.
  unfold emitExit.
  destruct (procs s !! child) as [p|]; [|apply onlyLogs_refl].
  generalize (exitListeners p). intros ls. revert s.
  induction ls as [|l ls IH]; intros s; simpl; [apply onlyLogs_refl|].
  apply (onlyLogs_trans _ (runExitListener host child code signal l s));
    [|apply IH].
  unfold runExitListener. destruct (terminated s); [apply onlyLogs_refl|].
  destruct l; [|apply onlyLogs_exitOfRestartRunner].
  unfold exitOfStartRunner.
  destruct (procs s !! child) as [q|]; [|apply onlyLogs_refl].
  destruct (exited q); [apply onlyLogs_refl|].
  destruct (respawn q); apply onlyLogs_same; reflexivity.
Qed.

Lemma In_delete {A : Type} (x : A) (i : nat) (l : list A) :
  In x (delete i l) -> In x l.
Proof.
  revert i. induction l as [|y l IH]; intros i H; [destruct i; exact H|].
  destruct i as [|i]; simpl in *; [right; exact H|].
  destruct H as [H|H]; [left; exact H | right; exact (IH i H)].
Qed.

(** A step makes the session resolving only when it delivers a
    termination signal. *)
Lemma resolving_step (ev : Event) (s : Session) :
  resolving (step host ev s) -> resolving s \/ isGotSignal ev = true.
Proof.
  unfold step. destruct (terminated s); [tauto|].
  destruct ev; simpl; try (intros _; right; reflexivity); intros H; left;
    revert H.
  - unfold coreListener. destruct (isIgnoredByCoreListener host file);
      [tauto | apply onlyLogs_resolving, onlyLogs_restartRunner].
  - apply onlyLogs_resolving, onlyLogs_restartRunner.
  - apply onlyLogs_resolving, onlyLogs_emitExit.
  - destruct (hasChild child s); [|tauto]. unfold onRequired.
    destruct (isIgnored host required) as [ignored|rule];
      [destruct (negb ignored && depthOk host required)|];
      [|tauto|]; apply onlyLogs_resolving, onlyLogs_same; reflexivity.
  - destruct (hasChild child s); [|tauto]. unfold onError.
    apply onlyLogs_resolving.
    apply (onlyLogs_trans _ (emit ConsoleError s));
      [apply onlyLogs_same; reflexivity|].
    apply (onlyLogs_trans _ (stopRunner (runner (emit ConsoleError s))
                               willTerminate (emit ConsoleError s)));
      [apply onlyLogs_stopRunner | apply onlyLogs_same; reflexivity].
  - destruct (hasChild child s); [|tauto].
    apply onlyLogs_resolving, onlyLogs_same; reflexivity.
  - apply onlyLogs_resolving, onlyLogs_stopRunner.
  - unfold channelClosed. destruct (procs s !! child); [|tauto].
    apply onlyLogs_resolving, onlyLogs_same; reflexivity.
  - unfold settleSigterm.
    destruct (pendingSigterms s !! i) as [[pid k0]|] eqn:Hi; [|tauto].
    destruct k0.
    + intros [H | (q & H)]; [left | right].
      * destruct ok; exact H.
      * exists q. apply (In_delete _ i). destruct ok; exact H.
    + intros _. right. exists pid.
      apply list_elem_of_In. apply (list_elem_of_lookup_2 _ i). exact Hi.
Qed.

Lemma resolving_run (evs : list Event) (s : Session) :
  resolving (run host evs s) -> resolving s \/ (0 < countSignals evs)%nat.
Proof.
  revert s. induction evs as [|ev evs IH]; intros s; [simpl; tauto|].
  change (run host (ev :: evs) s) with (run host evs (step host ev s)).
  intros H. apply IH in H.
  unfold countSignals in *. simpl.
  destruct H as [H|H].
  - apply resolving_step in H as [H|H]; [left; exact H|].
    right. rewrite H. simpl. lia.
  - right. destruct (isGotSignal ev); simpl; lia.
Qed.

End Resolution.

(** X14.  The session is resolved by termination signals only: over any
    run from the start of the session, if the session is resolved, or a
    delivery is under way whose continuation resolves it, then [SIGTERM]
    or [SIGINT] was among the events.  The stops of the runner, by a
    restart, an error or the compiler, leave deliveries that only log. *)
Theorem resolved_only_by_signal (host : Host) (evs : list Event) :
  let s := run host evs (boot host) in
  (resolving s -> exists sig, In (GotSignal sig) evs)
  /\ (countSignals evs = 0%nat ->
      resolved s = false
      /\ Forall (fun x : nat * Continuation => x.2 = ThenLog)
                (pendingSigterms s)).
Proof.
  intros s.
  assert (~ resolving (boot host)) as Hb.
  { unfold resolving, boot, startRunnerDo, startRunner.
    destruct (truthyPath (tsConfigPath host)); simpl;
      intros [H | (pid & [])]; discriminate H. }
  assert (resolving s -> (0 < countSignals evs)%nat) as Hs.
  { intros H. apply resolving_run in H as [H|H]; [contradiction | exact H]. }
  split.
  - intros H. apply Hs in H. unfold countSignals in H.
    destruct (List.filter isGotSignal evs) as [|e l] eqn:E; [simpl in H; lia|].
    assert (In e (List.filter isGotSignal evs)) as Hin
      by (rewrite E; left; reflexivity).
    apply List.filter_In in Hin as [Hin He].
    destruct e; try discriminate He. exists sig. exact Hin.
  - intros H0. split.
    + destruct (resolved s) eqn:Hr; [|reflexivity].
      assert (resolving s) as H by (left; exact Hr). apply Hs in H. lia.
    + apply List.Forall_forall. intros [pid k0] Hin. simpl.
      destruct k0; [reflexivity|].
      assert (resolving s) as H by (right; exists pid; exact Hin).
      apply Hs in H. lia.
Qed.

(** The sample host restarts, gets [SIGINT], and the delivery of the
    relayed signal succeeds: the session is resolved, and the signal is
    among the events. *)
Lemma resolved_only_by_signal_witness :
  let evs := [Restart "a.ts"; GotSignal SIGINT; SigtermSettled 1 true] in
  resolved (run sampleHost evs (boot sampleHost)) = true
  /\ exists sig, In (GotSignal sig) evs.
Proof.
  split; [vm_compute; reflexivity|].
  destruct (resolved_only_by_signal sampleHost
              [Restart "a.ts"; GotSignal SIGINT; SigtermSettled 1 true])
    as [H _].
  apply H. left. vm_compute. reflexivity.
Defined.

(** ** Further facts: the plugins and the core listener *)

Lemma reduce_concat {A : Type} (f : A -> list string) (l : list A)
  (acc : list string) :
  fold_left (fun patterns p => patterns ++ f p) l acc = acc ++ flat_map f l.
Proof.
  revert acc. induction l as [|x l IH]; intros acc; simpl.
  - rewrite app_nil_r. reflexivity.
  - rewrite IH, <- app_assoc. reflexivity.
Qed.

Lemma flat_map_nil {A B : Type} (f : A -> list B) (l : list A) :
  Forall (fun x => f x = []) l -> flat_map f l = [].
Proof.
  induction 1 as [|x l Hx _ IH]; simpl; [reflexivity|].
  rewrite Hx, IH. reflexivity.
Qed.

(** X15.  The reductions over the plugins concatenate their lists in the
    order of the plugins, a plugin without a list adding nothing; the
    watcher is created on the source root followed by the watch patterns
    so gathered.  When no plugin gives the core listener a pattern to
    ignore, the listener drops no notification: each one, whatever the
    file, is a call of [restartRunner] on it. *)
Theorem core_listener_contributions
  (host : Host) (plugins : list Plugin) (sourceRoot : string) :
  pluginIgnoreContributions host = pluginIgnoreContributionsOf plugins ->
  pluginIgnoreContributions host
  = flat_map (fun p => default [] (appIgnoreFilePatterns p)) plugins
  /\ watchRoots sourceRoot plugins
     = sourceRoot :: flat_map (fun p => default [] (watchFilePatterns p)) plugins
  /\ (Forall (fun p => default [] (appIgnoreFilePatterns p) = []) plugins ->
      forall file s,
        isIgnoredByCoreListener host file = false
        /\ handle host (WatcherAll file) s = restartRunner host file s).
Proof.
  intros H.
  assert (pluginIgnoreContributions host
          = flat_map (fun p => default [] (appIgnoreFilePatterns p)) plugins)
    as E.
  { rewrite H. unfold pluginIgnoreContributionsOf.
    rewrite reduce_concat. reflexivity. }
  split; [exact E|]. split.
  - unfold watchRoots, pluginWatchContributions.
    rewrite reduce_concat. reflexivity.
  - intros Hall file s.
    assert (isIgnoredByCoreListener host file = false) as Hi.
    { unfold isIgnoredByCoreListener, Matcher.createPathMatcher.
      rewrite E, (flat_map_nil _ _ Hall). reflexivity. }
    split; [exact Hi|].
    simpl. unfold coreListener. rewrite Hi. reflexivity.
Qed.

(** Two plugins, one with watch patterns only and one with an empty list
    of patterns to ignore, on a host that has none. *)
Lemma core_listener_contributions_witness :
  let plugins := [mkPlugin (Some ["prisma/schema.prisma"]) None;
                  mkPlugin None (Some [])] in
  pluginIgnoreContributions respawningHost
  = flat_map (fun p => default [] (appIgnoreFilePatterns p)) plugins
  /\ watchRoots "/proj/app" plugins
     = "/proj/app" :: flat_map (fun p => default [] (watchFilePatterns p)) plugins
  /\ (Forall (fun p => default [] (appIgnoreFilePatterns p) = []) plugins ->
      forall file s,
        isIgnoredByCoreListener respawningHost file = false
        /\ handle respawningHost (WatcherAll file) s
           = restartRunner respawningHost file s).
Proof.
  apply (core_listener_contributions respawningHost
           [mkPlugin (Some ["prisma/schema.prisma"]) None;
            mkPlugin None (Some [])] "/proj/app").
  vm_compute. reflexivity.
Defined.

End SupervisorFacts.
